(** * TrAP: the SQL safety check, the sanitizer and the pagination rewriter

    A shallow embedding of
      - [trendsql/app/sql_safety.py]  ([ensure_safe_select], [sanitize_sql],
        [extract_sql_from_code_block]),
      - [trendsql/app/pagination.py]  ([add_pagination],
        [create_count_query], [validate_pagination_params],
        [get_pagination_info]),
      - [trendsql/app/app.py] (the [/query] handler up to the statements it
        executes) and the cell text of [trendsql/app/formatters.py],
      - [trendsql_kg/app/pagination.py] ([PaginationHelper.add_pagination],
        [_remove_existing_pagination], [_calculate_pagination_metadata],
        [validate_pagination_params]),
      - [trendsql_kg/app/sql_safety.py] ([check_sql_safety] up to its
        regular expressions; what it asks of [sqlparse] is a parameter;
        [sanitize_sql]),
      - [trendsql_kg/app/formatters.py] ([_escape_html]),
    followed by the properties the specification states about them and by
    further properties of the same code.

    Text.  A Python [str] is a [list ascii].  The character classes below
    are Python's on the ASCII range: [\s] and [str.strip] use
    [str.isspace] (codes 9-13, 28-31 and 32), [\w] is [A-Za-z0-9_], [\d] is
    [0-9], and [str.upper] maps [a-z] to [A-Z].  A code above 127 stands for
    a caseless symbol that is neither a word character, a digit nor white
    space, so every text of the model is a text Python can receive, and
    [str.upper] keeps its length.  Python integers are [Z]. *)

From Stdlib Require Import Ascii String.
From Stdlib Require Import List Bool Arith ZArith Lia.
From Stdlib Require Decimal DecimalString.
From Equations Require Import Equations.
Import ListNotations.

(** ** Text and character classes *)

Definition text := list ascii.

(** A string literal of the source. *)
Definition py (s : string) : text := list_ascii_of_string s.

Definition code (c : ascii) : nat := nat_of_ascii c.

Definition between (lo hi n : nat) : bool := (lo <=? n) && (n <=? hi).

(** [str.isspace] on one character, which is also the regex class [\s]. *)
Definition isspace (c : ascii) : bool :=
  between 9 13 (code c) || between 28 32 (code c).

(** The regex class [\d]. *)
Definition isdigit (c : ascii) : bool := between 48 57 (code c).

(** The regex class [\w]. *)
Definition isword (c : ascii) : bool :=
  isdigit c || between 65 90 (code c) || between 97 122 (code c)
  || (code c =? 95).

Definition upper_char (c : ascii) : ascii :=
  if between 97 122 (code c) then ascii_of_nat (code c - 32) else c.

(** [str.upper()]. *)
Definition upper (s : text) : text := map upper_char s.

Definition eqc (a b : ascii) : bool := Ascii.eqb a b.

Definition newline : ascii := ascii_of_nat 10.

(** [str.lstrip()], [str.rstrip()] and [str.strip()] without argument. *)
Fixpoint lstrip (s : text) : text :=
  match s with
  | [] => []
  | c :: s' => if isspace c then lstrip s' else s
  end.

Fixpoint rstrip (s : text) : text :=
  match s with
  | [] => []
  | c :: s' =>
      match rstrip s' with
      | [] => if isspace c then [] else [c]
      | r => c :: r
      end
  end.

Definition strip (s : text) : text := rstrip (lstrip s).

(** [s.startswith(p)]. *)
Fixpoint starts_with (p s : text) : bool :=
  match p, s with
  | [], _ => true
  | _ :: _, [] => false
  | a :: p', b :: s' => eqc a b && starts_with p' s'
  end.

(** [p in s] for strings. *)
Fixpoint contains (p s : text) : bool :=
  starts_with p s ||
  match s with
  | [] => false
  | _ :: s' => contains p s'
  end.

(** ** The regular expressions of [sql_safety.py]

    A matcher works on the text that remains at a position together with
    the character just before that position ([None] at the start of the
    text), which is what [\b] looks at. *)

Definition wordc (o : option ascii) : bool :=
  match o with
  | Some c => isword c
  | None => false
  end.

(** [\b] between the previous and the next character. *)
Definition boundary (prev next : option ascii) : bool :=
  xorb (wordc prev) (wordc next).

(** The character before the position reached after reading [w]. *)
Definition last_of (prev : option ascii) (w : text) : option ascii :=
  match List.rev w with
  | [] => prev
  | c :: _ => Some c
  end.

(** [w\b] at this position. *)
Definition word_end (prev : option ascii) (w s : text) : bool :=
  starts_with w s &&
  boundary (last_of prev w) (hd_error (skipn (length w) s)).

(** [(w1|w2|...)\b] at this position: the alternatives are tried in order
    and the first one that lets the rest of the pattern match is taken;
    the result is the text of the group. *)
Definition alt_at (alts : list text) (prev : option ascii) (s : text)
  : option text :=
  find (fun w => word_end prev w s) alts.

(** [\b(w1|w2|...)\b] at this position. *)
Definition kw_at (alts : list text) (prev : option ascii) (s : text)
  : option text :=
  if boundary prev (hd_error s) then alt_at alts prev s else None.

(** [.*\b(w1|w2|...)\b] at this position, without DOTALL: [.] does not
    match a newline. *)
Fixpoint dot_star_kw (alts : list text) (prev : option ascii) (s : text)
  : bool :=
  match kw_at alts prev s with
  | Some _ => true
  | None =>
      match s with
      | [] => false
      | c :: s' => negb (eqc c newline) && dot_star_kw alts (Some c) s'
      end
  end.

(** [\b(a1|a2|...)\b.*\b(b1|b2|...)\b] at this position; the result is
    group 1. *)
Definition kw_then_kw_at (alts1 alts2 : list text) (prev : option ascii)
  (s : text) : option text :=
  if boundary prev (hd_error s) then
    find (fun w => word_end prev w s &&
                   dot_star_kw alts2 (last_of prev w) (skipn (length w) s))
         alts1
  else None.

(** [re.search]: the leftmost position at which the pattern matches. *)
Fixpoint search_from (m : option ascii -> text -> option text)
  (prev : option ascii) (s : text) : option text :=
  match m prev s with
  | Some g => Some g
  | None =>
      match s with
      | [] => None
      | c :: s' => search_from m (Some c) s'
      end
  end.

(** The two shapes of pattern in [dangerous_patterns]. *)
Inductive pattern : Type :=
| Keyword (alts : list text)
| KeywordThenKeyword (alts1 alts2 : list text).

(** A match object, of which the code reads [group(1)] only. *)
Record re_match : Type := MkMatch { group1 : text }.

Definition match_at (p : pattern) : option ascii -> text -> option text :=
  match p with
  | Keyword alts => kw_at alts
  | KeywordThenKeyword alts1 alts2 => kw_then_kw_at alts1 alts2
  end.

Definition re_search (p : pattern) (s : text) : option re_match :=
  option_map MkMatch (search_from (match_at p) None s).

(** ** [ensure_safe_select] *)

Definition forbidden_keywords : list text :=
  map py ["INSERT"; "UPDATE"; "DELETE"; "DROP"; "TRUNCATE"; "ALTER";
          "CREATE"; "REINDEX"; "VACUUM"; "GRANT"; "REVOKE"]%string.

Definition exec_keywords : list text :=
  map py ["EXEC"; "EXECUTE"; "EXECUTE IMMEDIATE"]%string.

Definition union_keywords : list text :=
  map py ["UNION ALL"; "UNION"]%string.

Definition union_targets : list text :=
  map py ["SELECT"; "INSERT"; "UPDATE"; "DELETE"]%string.

Definition dangerous_patterns : list pattern :=
  [ Keyword forbidden_keywords;
    Keyword exec_keywords;
    KeywordThenKeyword union_keywords union_targets ].

Definition allowed_start : list text :=
  map py ["WITH"; "SELECT"; "EXPLAIN"]%string.

(** [re.match(r'^(WITH|SELECT|EXPLAIN)\b', s)]. *)
Definition match_allowed_start (s : text) : option re_match :=
  option_map MkMatch (alt_at allowed_start None s).

(** The pair [(is_safe, error_message)]. *)
Definition verdict : Type := (bool * option text)%type.

Inductive exn : Type := AttributeError.

(** A returned value, or a raised exception. *)
Inductive outcome (A : Type) : Type :=
| Ok (a : A)
| Raise (e : exn).
Arguments Ok {A} a.
Arguments Raise {A} e.

Definition msg_forbidden : text := py "SQL contains forbidden keyword: ".
Definition msg_start : text := py "SQL must start with SELECT, WITH, or EXPLAIN".
Definition msg_semicolon : text :=
  py "Multiple statements not allowed (semicolon detected)".
Definition msg_comment : text := py "Comments not allowed in SQL".

(** The loop over [dangerous_patterns]: [None] when it falls through.  The
    body searches twice, and [.group(1)] on a failed second search would
    raise. *)
Fixpoint check_patterns (ps : list pattern) (sql_upper : text)
  : option (outcome verdict) :=
  match ps with
  | [] => None
  | p :: ps' =>
      match re_search p sql_upper with
      | Some _ =>
          match re_search p sql_upper with
          | Some m => Some (Ok (false, Some (msg_forbidden ++ group1 m)))
          | None => Some (Raise AttributeError)
          end
      | None => check_patterns ps' sql_upper
      end
  end.

Definition ensure_safe_select (sql : text) : outcome verdict :=
  let sql_upper := upper (strip sql) in
  match check_patterns dangerous_patterns sql_upper with
  | Some r => r
  | None =>
      match match_allowed_start sql_upper with
      | None => Ok (false, Some msg_start)
      | Some _ =>
          if contains (py ";") sql then Ok (false, Some msg_semicolon)
          else if contains (py "--") sql || contains (py "/*") sql
          then Ok (false, Some msg_comment)
          else Ok (true, None)
      end
  end.

(** The boolean of the verdict, as the callers read it. *)
Definition is_safe (r : outcome verdict) : bool :=
  match r with
  | Ok (b, _) => b
  | Raise _ => false
  end.

(** ** [sanitize_sql]

    [re.sub] for a pattern that looks at the text ahead only and never
    matches the empty string: [m s] is the length, less one, of the match
    that starts at the head of [s], when there is one.  Matches are
    replaced from left to right and the search resumes after each. *)

Equations? re_sub (m : text -> option nat) (repl : text) (s : text) : text
  by wf (length s) lt :=
re_sub m repl [] := [];
re_sub m repl (c :: s') with m (c :: s') := {
  | Some n => repl ++ re_sub m repl (skipn n s')
  | None => c :: re_sub m repl s' }.
Proof.
  rewrite length_skipn. simpl. lia.
Defined.

(** The number of characters before the first newline: what [.*] reads
    before [$] under MULTILINE. *)
Fixpoint line_length (s : text) : nat :=
  match s with
  | [] => 0
  | c :: s' => if eqc c newline then 0 else S (line_length s')
  end.

(** [--.*$] with MULTILINE. *)
Definition line_comment_at (s : text) : option nat :=
  if starts_with (py "--") s then Some (1 + line_length (skipn 2 s))
  else None.

(** The position of the first [*/]. *)
Fixpoint find_close (s : text) : option nat :=
  if starts_with (py "*/") s then Some 0
  else match s with
       | [] => None
       | _ :: s' => option_map S (find_close s')
       end.

(** [/\*.*?\*/] with DOTALL: the first [*/] after the opener closes. *)
Definition block_comment_at (s : text) : option nat :=
  if starts_with (py "/*") s then
    option_map (fun k => 3 + k) (find_close (skipn 2 s))
  else None.

(** The length of the longest prefix of white space. *)
Fixpoint space_run (s : text) : nat :=
  match s with
  | [] => 0
  | c :: s' => if isspace c then S (space_run s') else 0
  end.

(** [\s+]. *)
Definition spaces_at (s : text) : option nat :=
  match s with
  | [] => None
  | c :: s' => if isspace c then Some (space_run s') else None
  end.

Definition sanitize_sql (sql : text) : text :=
  let sql := re_sub line_comment_at [] sql in
  let sql := re_sub block_comment_at [] sql in
  strip (re_sub spaces_at (py " ") sql).

(** ** [extract_sql_from_code_block]

    The pattern is a fence, an optional [sql], [\s*\n], a lazy group and
    [\n] with the closing fence, compiled with DOTALL and IGNORECASE. *)

Definition fence : text := ["`"; "`"; "`"]%char.

(** The lazy group and what follows it: group 1 ends at the first newline
    that a fence follows. *)
Fixpoint until_fence (s : text) : option text :=
  if starts_with (newline :: fence) s then Some []
  else match s with
       | [] => None
       | c :: s' => option_map (cons c) (until_fence s')
       end.

(** [\s*\n] and the rest of the pattern: the greedy [\s*] reads the whole
    run of white space and gives characters back one at a time, so the
    newlines of the run are tried from the last to the first. *)
Fixpoint block_body (s : text) : option text :=
  match s with
  | [] => None
  | c :: s' =>
      if isspace c then
        match block_body s' with
        | Some g => Some g
        | None => if eqc c newline then until_fence s' else None
        end
      else None
  end.

(** The pattern at this position; the result is group 1.  Of the two ways
    to read the optional [sql] only one can go on: either the word follows
    the fence or white space does. *)
Definition code_block_at (s : text) : option text :=
  if starts_with fence s then
    let r := skipn 3 s in
    block_body (if starts_with (py "SQL") (upper r) then skipn 3 r else r)
  else None.

Definition extract_sql_from_code_block (txt : text) : option text :=
  match search_from (fun _ => code_block_at) None txt with
  | Some g => Some (strip g)
  | None =>
      match strip txt with
      | [] => None
      | t => Some t
      end
  end.

(** ** [trendsql/app/pagination.py] *)

(** [s.find(p)] and [s.rfind(p)], with [None] for [-1]. *)
Fixpoint str_find (p s : text) : option nat :=
  if starts_with p s then Some 0
  else match s with
       | [] => None
       | _ :: s' => option_map S (str_find p s')
       end.

Fixpoint str_rfind (p s : text) : option nat :=
  match s with
  | [] => if starts_with p [] then Some 0 else None
  | _ :: s' =>
      match str_rfind p s' with
      | Some i => Some (S i)
      | None => if starts_with p s then Some 0 else None
      end
  end.

(** [s.find(p, start)] for [start <= len(s)]. *)
Definition str_find_from (p s : text) (start : nat) : option nat :=
  option_map (Nat.add start) (str_find p (skipn start s)).

(** [str(n)] of an integer, as an f-string prints it. *)
Definition format_int (n : Z) : text :=
  py (DecimalString.NilZero.string_of_int (Z.to_int n)).

Definition add_pagination (sql : text) (page page_size : Z) : text :=
  let sql_upper := upper sql in
  let sql :=
    match str_rfind (py "LIMIT") sql_upper with
    | Some limit_pos =>
        let end_pos :=
          match str_find_from (py ";") sql limit_pos with
          | Some e => e
          | None => length sql
          end in
        rstrip (firstn limit_pos sql) ++ skipn end_pos sql
    | None => sql
    end in
  let offset := ((page - 1) * page_size)%Z in
  rstrip sql ++ py " LIMIT " ++ format_int page_size
             ++ py " OFFSET " ++ format_int offset.

Definition validate_pagination_params (page page_size : Z) : Z * Z :=
  let page := Z.max 1 page in
  let page_size := Z.max 1 (Z.min 1000 page_size) in
  (page, page_size).

Definition create_count_query (sql : text) : text :=
  let sql_upper := upper sql in
  let sql :=
    match str_rfind (py "ORDER BY") sql_upper with
    | Some order_pos =>
        let end_pos :=
          match str_find_from (py ";") sql order_pos with
          | Some e => e
          | None => length sql
          end in
        rstrip (firstn order_pos sql) ++ skipn end_pos sql
    | None => sql
    end in
  let sql :=
    match str_rfind (py "LIMIT") sql_upper with
    | Some limit_pos =>
        let end_pos :=
          match str_find_from (py ";") sql limit_pos with
          | Some e => e
          | None => length sql
          end in
        rstrip (firstn limit_pos sql) ++ skipn end_pos sql
    | None => sql
    end in
  py "SELECT COUNT(*) as total FROM (" ++ sql ++ py ") as count_query".

Inductive arith_error : Type := ZeroDivisionError.

(** [a // b] on integers: the floor of the quotient, and an exception for
    a zero divisor. *)
Definition floordiv (a b : Z) : Z + arith_error :=
  if (b =? 0)%Z then inr ZeroDivisionError else inl (a / b)%Z.

(** The keys [get_pagination_info] adds when [total_rows] is given. *)
Record page_totals : Type := MkTotals {
  total_rows : Z;
  total_pages : Z;
  has_next : bool;
  has_prev : bool }.

(** The dict [get_pagination_info] returns. *)
Record pagination_info : Type := MkInfo {
  info_page : Z;
  info_page_size : Z;
  info_offset : Z;
  info_totals : option page_totals }.

Definition get_pagination_info (page page_size : Z) (total_rows : option Z)
  : pagination_info + arith_error :=
  let '(page, page_size) := validate_pagination_params page page_size in
  let offset := ((page - 1) * page_size)%Z in
  match total_rows with
  | None => inl (MkInfo page page_size offset None)
  | Some total_rows =>
      match floordiv (total_rows + page_size - 1) page_size with
      | inr e => inr e
      | inl total_pages =>
          inl (MkInfo page page_size offset
                 (Some (MkTotals total_rows total_pages
                          (page * page_size <? total_rows)%Z
                          (page >? 1)%Z)))
      end
  end.

(** ** [trendsql/app/app.py]: the [/query] handler

    The handler up to the statements it passes to [cursor.execute]; the
    database and what it answers are outside the program. *)

Inductive handled : Type :=
| HTTPException (status_code : Z) (detail : text)
| Unhandled (e : exn)
| Executes (paginated_sql : text) (count_sql : option text).

(** An optional string inside an f-string. *)
Definition format_optional (o : option text) : text :=
  match o with
  | Some t => t
  | None => py "None"
  end.

Definition execute_query (request_sql : text)
  (request_page request_page_size : Z) (include_total : bool) : handled :=
  let '(page, page_size) :=
    validate_pagination_params request_page request_page_size in
  let sql := sanitize_sql request_sql in
  match ensure_safe_select sql with
  | Raise e => Unhandled e
  | Ok (safe, error) =>
      if negb safe then
        HTTPException 400
          (py "SQL failed safety check: " ++ format_optional error)
      else
        Executes (add_pagination sql page page_size)
                 (if include_total then Some (create_count_query sql)
                  else None)
  end.

(** ** [trendsql/app/formatters.py]: the cell text of [rows_to_html_table] *)

(** [s.replace(old, new)] for an [old] of one character. *)
Definition str_replace (old : ascii) (new : text) (s : text) : text :=
  flat_map (fun c => if eqc c old then new else [c]) s.

(** The double quote. *)
Definition dquote : ascii := ascii_of_nat 34.

(** The text of a cell whose value is a string (line 39). *)
Definition escaped_value (value : text) : text :=
  str_replace ">" (py "&gt;")
    (str_replace "<" (py "&lt;")
       (str_replace "&" (py "&amp;") value)).

(** ** [trendsql_kg/app/pagination.py] *)

Module Kg.

(** [\s+] and [\d+] at the head of the text: what remains after the
    longest run, when the run is not empty.  In the patterns below each
    run is followed by a character of another class or by the end of the
    text, so only the longest run can lead to a match. *)
Definition after_spaces (s : text) : option text :=
  match space_run s with
  | 0 => None
  | n => Some (skipn n s)
  end.

Fixpoint digit_run (s : text) : nat :=
  match s with
  | [] => 0
  | c :: s' => if isdigit c then S (digit_run s') else 0
  end.

Definition after_digits (s : text) : option text :=
  match digit_run s with
  | 0 => None
  | n => Some (skipn n s)
  end.

(** A literal under IGNORECASE. *)
Definition starts_with_ci (p s : text) : bool :=
  starts_with (upper p) (upper s).

(** [\s*$]: the rest of the text is white space. *)
Definition only_spaces (s : text) : bool := forallb isspace s.

(** [OFFSET\s+\d+\s*$] at this position. *)
Definition offset_tail (s : text) : bool :=
  starts_with_ci (py "OFFSET") s &&
  match after_spaces (skipn 6 s) with
  | Some r =>
      match after_digits r with
      | Some r' => only_spaces r'
      | None => false
      end
  | None => false
  end.

(** [\bLIMIT\s+\d+(\s+OFFSET\s+\d+)?\s*$] at this position. *)
Definition limit_clause_at (prev : option ascii) (s : text) : bool :=
  boundary prev (hd_error s) && starts_with_ci (py "LIMIT") s &&
  match after_spaces (skipn 5 s) with
  | Some r =>
      match after_digits r with
      | Some r' =>
          match after_spaces r' with
          | Some r'' => offset_tail r'' || only_spaces r'
          | None => only_spaces r'
          end
      | None => false
      end
  | None => false
  end.

(** [\bOFFSET\s+\d+\s*$] at this position. *)
Definition offset_clause_at (prev : option ascii) (s : text) : bool :=
  boundary prev (hd_error s) && offset_tail s.

(** [re.sub(pattern, '', s)] for a pattern that ends in [\s*$]: a match
    reaches the end of the text, so the leftmost match is cut off. *)
Fixpoint sub_to_end (m : option ascii -> text -> bool)
  (prev : option ascii) (s : text) : text :=
  if m prev s then []
  else match s with
       | [] => []
       | c :: s' => c :: sub_to_end m (Some c) s'
       end.

Definition _remove_existing_pagination (sql : text) : text :=
  let sql := sub_to_end limit_clause_at None sql in
  let sql := sub_to_end offset_clause_at None sql in
  strip sql.

Definition add_pagination (sql : text) (page page_size : Z) : text :=
  let page := if (page <? 1)%Z then 1%Z else page in
  let page_size := if (page_size <? 1)%Z then 50%Z else page_size in
  let offset := ((page - 1) * page_size)%Z in
  let sql_upper := strip (upper sql) in
  let sql :=
    if contains (py "LIMIT") sql_upper || contains (py "OFFSET") sql_upper
    then _remove_existing_pagination sql
    else sql in
  sql ++ py " LIMIT " ++ format_int page_size
      ++ py " OFFSET " ++ format_int offset.

Definition validate_pagination_params (page page_size max_page_size : Z)
  : Z * Z :=
  let page := if (page <? 1)%Z then 1%Z else page in
  let page_size :=
    if (page_size <? 1)%Z then 50%Z
    else if (page_size >? max_page_size)%Z then max_page_size
    else page_size in
  (page, page_size).

(** The dict [_calculate_pagination_metadata] returns. *)
Record pagination_metadata : Type := MkMetadata {
  meta_page : Z;
  meta_page_size : Z;
  meta_total_count : Z;
  meta_result_count : Z;
  meta_total_pages : Z;
  meta_has_next : bool;
  meta_has_previous : bool;
  meta_next_page : option Z;
  meta_previous_page : option Z;
  meta_start_index : Z;
  meta_end_index : Z }.

Definition _calculate_pagination_metadata
  (page page_size total_count result_count : Z)
  : pagination_metadata + arith_error :=
  match (if (total_count >? 0)%Z
         then floordiv (total_count + page_size - 1) page_size
         else inl 0%Z) with
  | inr e => inr e
  | inl total_pages =>
      inl (MkMetadata page page_size total_count result_count total_pages
             (page <? total_pages)%Z
             (page >? 1)%Z
             (if (page <? total_pages)%Z then Some (page + 1)%Z else None)
             (if (page >? 1)%Z then Some (page - 1)%Z else None)
             (if (total_count >? 0)%Z then ((page - 1) * page_size + 1)%Z
              else 0%Z)
             (if (total_count >? 0)%Z
              then Z.min (page * page_size) total_count
              else 0%Z))
  end.

(** *** [trendsql_kg/app/sql_safety.py]: the checks before [sqlparse] *)

Definition DANGEROUS_KEYWORDS : list text :=
  map py ["CREATE"; "DROP"; "ALTER"; "TRUNCATE"; "RENAME"; "COMMENT";
          "INSERT"; "UPDATE"; "DELETE"; "MERGE"; "UPSERT";
          "BEGIN"; "COMMIT"; "ROLLBACK"; "SAVEPOINT"; "RELEASE";
          "GRANT"; "REVOKE"; "EXECUTE"; "CALL"; "DO";
          "COPY"; "IMPORT"; "EXPORT";
          "VACUUM"; "ANALYZE"; "REINDEX"; "CLUSTER";
          "pg_read_file"; "pg_write_file"; "pg_ls_dir"]%string.

(** A pattern without look-behind matches somewhere in the text. *)
Fixpoint anywhere (m : text -> bool) (s : text) : bool :=
  m s ||
  match s with
  | [] => false
  | _ :: s' => anywhere m s'
  end.

(** [\b(?:k1|k2|...)\b] under IGNORECASE at this position; a word
    character stays one in either case, so the boundary after the matched
    text is the boundary after the keyword. *)
Definition keyword_at (alts : list text) (prev : option ascii) (s : text)
  : option text :=
  if boundary prev (hd_error s) then
    find (fun w => starts_with_ci w s &&
                   boundary (last_of prev w) (hd_error (skipn (length w) s)))
         alts
  else None.

(** [\s*$] under MULTILINE: white space up to the end of the text or to
    a position before a newline. *)
Fixpoint spaces_then_eol (s : text) : bool :=
  match s with
  | [] => true
  | c :: s' => eqc c newline || (isspace c && spaces_then_eol s')
  end.

(** [lit\s*$] under MULTILINE, for [;\s*$] and for the backslash. *)
Definition lit_then_eol (lit : ascii) (s : text) : bool :=
  match s with
  | c :: s' => eqc c lit && spaces_then_eol s'
  | [] => false
  end.

(** [word\s*\(] under IGNORECASE, for [exec] and [execute]. *)
Definition call_at (word s : text) : bool :=
  starts_with_ci word s &&
  let r := skipn (length word) s in
  starts_with (py "(") (skipn (space_run r) r).

(** [self.dangerous_regex.search(sql)]: the nine alternatives, compiled
    with IGNORECASE, MULTILINE and DOTALL; with DOTALL [--.*$] matches from
    any [--] to the end of the text. *)
Definition _has_dangerous_patterns (sql : text) : bool :=
  match search_from (keyword_at DANGEROUS_KEYWORDS) None sql with
  | Some _ => true
  | None => false
  end
  || contains (py "--") sql
  || anywhere (fun s => match block_comment_at s with
                        | Some _ => true
                        | None => false
                        end) sql
  || anywhere (lit_then_eol ";") sql
  || anywhere (lit_then_eol "\") sql
  || anywhere (starts_with_ci (py "xp_cmdshell")) sql
  || anywhere (starts_with_ci (py "sp_executesql")) sql
  || anywhere (call_at (py "exec")) sql
  || anywhere (call_at (py "execute")) sql.

Definition _normalize_sql (sql : text) : text :=
  let sql := strip sql in
  let sql := re_sub line_comment_at [] sql in
  re_sub block_comment_at [] sql.

(** [sql.split(';')[0]]. *)
Fixpoint first_statement (s : text) : text :=
  match s with
  | [] => []
  | c :: s' => if eqc c ";" then [] else c :: first_statement s'
  end.

(** The index of the last newline in the run of white space at the head
    of the text. *)
Fixpoint last_newline (s : text) : option nat :=
  match s with
  | [] => None
  | c :: s' =>
      if isspace c then
        match last_newline s' with
        | Some k => Some (S k)
        | None => if eqc c newline then Some 0 else None
        end
      else None
  end.

(** A backslash, [\s*] and a newline: the greedy [\s*] stops before the
    last newline of the run. *)
Definition continuation_at (s : text) : option nat :=
  match s with
  | c :: s' => if eqc c "\" then option_map S (last_newline s') else None
  | [] => None
  end.

Definition sanitize_sql (sql : text) : text :=
  let sql := re_sub line_comment_at [] sql in
  let sql := re_sub block_comment_at [] sql in
  let sql := strip (first_statement sql) in
  re_sub continuation_at (py " ") sql.

Definition msg_empty : text := py "Empty SQL query".
Definition msg_dangerous : text := py "Query contains dangerous SQL patterns".

Section CheckSqlSafety.

(** What lines 122-144 return for the normalized text: the verdict that
    rests on [sqlparse], a library outside the repository; the [try] and
    [except] around those lines make it a value. *)
Variable parsed_verdict : text -> verdict.

Definition check_sql_safety (sql : text) : verdict :=
  match strip sql with
  | [] => (false, Some msg_empty)
  | _ =>
      let normalized_sql := _normalize_sql sql in
      if _has_dangerous_patterns normalized_sql
      then (false, Some msg_dangerous)
      else parsed_verdict normalized_sql
  end.

End CheckSqlSafety.

(** *** [trendsql_kg/app/formatters.py] *)

Definition _escape_html (txt : text) : text :=
  str_replace "'" (py "&#39;")
    (str_replace dquote (py "&quot;")
       (str_replace ">" (py "&gt;")
          (str_replace "<" (py "&lt;")
             (str_replace "&" (py "&amp;") txt)))).

End Kg.

(** ** The vocabulary of the properties *)

(** The verdict invariant of the specification: a reason is present
    exactly when the verdict is a rejection, and it is never empty. *)
Definition verdict_invariant (v : verdict) : Prop :=
  (fst v = false <-> snd v <> None) /\
  (forall reason, snd v = Some reason -> reason <> []).

(** [occurs_at prev w s]: the text [s], read after the character [prev],
    holds [w] between two word boundaries. *)
Definition occurs_at (prev : option ascii) (w s : text) : Prop :=
  exists pre post,
    s = pre ++ w ++ post /\
    boundary (last_of prev pre) (hd_error (w ++ post)) = true /\
    boundary (last_of (last_of prev pre) w) (hd_error post) = true.

Definition occurs_as_word (w s : text) : Prop := occurs_at None w s.

(** A keyword that neither starts nor ends with white space. *)
Definition solid (w : text) : bool :=
  match w, last_of None w with
  | c :: _, Some d => negb (isspace c) && negb (isspace d)
  | _, _ => false
  end.

Definition spaces (r : text) : Prop := Forall (fun c => isspace c = true) r.

(** The words the first two patterns reject. *)
Definition denied_keywords : list text := forbidden_keywords ++ exec_keywords.

(** The words group 1 of a dangerous pattern can hold. *)
Definition reported_keywords : list text := denied_keywords ++ union_keywords.

(** The text holds none of the words a dangerous pattern starts with. *)
Definition no_reported_keyword (sql : text) : Prop :=
  forall k, In k reported_keywords -> ~ occurs_as_word k (upper sql).

(** The longest prefix of word characters. *)
Fixpoint word_prefix (s : text) : text :=
  match s with
  | [] => []
  | c :: s' => if isword c then c :: word_prefix s' else []
  end.

(** The first word of the text [ensure_safe_select] looks at. *)
Definition leading_keyword (sql : text) : text :=
  word_prefix (upper (strip sql)).

(** A non-empty run of word characters. *)
Definition wordy (k : text) : bool :=
  match k with
  | [] => false
  | _ => forallb isword k
  end.

Definition starts_with_space (s : text) : bool :=
  match s with
  | c :: _ => isspace c
  | [] => false
  end.

(** Every white-space character is a blank that no white space follows. *)
Fixpoint single_spaced (s : text) : bool :=
  match s with
  | [] => true
  | c :: s' =>
      (if isspace c then eqc c " " && negb (starts_with_space s') else true)
      && single_spaced s'
  end.


(** What [add_pagination] appends. *)
Definition limit_clause (page page_size : Z) : text :=
  py " LIMIT " ++ format_int page_size
  ++ py " OFFSET " ++ format_int ((page - 1) * page_size).


(** The text [add_pagination] works on once an existing LIMIT is cut. *)
Definition without_limit (sql : text) : text :=
  match str_rfind (py "LIMIT") (upper sql) with
  | Some limit_pos =>
      let end_pos :=
        match str_find_from (py ";") sql limit_pos with
        | Some e => e
        | None => length sql
        end in
      rstrip (firstn limit_pos sql) ++ skipn end_pos sql
  | None => sql
  end.

(** [occurs_on_line prev w s]: [w] stands in [s] between two word
    boundaries with no newline before it. *)
Definition occurs_on_line (prev : option ascii) (w s : text) : Prop :=
  exists pre post,
    s = pre ++ w ++ post /\ ~ In newline pre /\
    boundary (last_of prev pre) (hd_error (w ++ post)) = true /\
    boundary (last_of (last_of prev pre) w) (hd_error post) = true.

(** The text holds UNION or UNION ALL as a word and, after it and before
    the next newline, one of SELECT, INSERT, UPDATE, DELETE as a word. *)
Definition union_then_target (s : text) : Prop :=
  exists u t pre rest,
    In u union_keywords /\ In t union_targets /\
    s = pre ++ u ++ rest /\
    boundary (last_of None pre) (hd_error (u ++ rest)) = true /\
    boundary (last_of (last_of None pre) u) (hd_error rest) = true /\
    occurs_on_line (last_of (last_of None pre) u) t rest.

(** A text without white space at either end. *)
Definition trimmed (s : text) : Prop := strip s = s.

(** The characters of a non-negative printed integer. *)
Definition digits (s : text) : Prop :=
  s <> [] /\ Forall (fun c => isdigit c = true) s.

(** A character that [upper] neither changes nor produces. *)
Definition caseless (x : ascii) : Prop :=
  forall c, eqc x (upper_char c) = eqc x c.

(** The text cut at a position, as [add_pagination] and
    [create_count_query] cut it: up to the position, less trailing white
    space, and from the next semicolon on. *)
Definition cut_from (pos : option nat) (x : text) : text :=
  match pos with
  | Some p =>
      let end_pos :=
        match str_find_from (py ";") x p with
        | Some e => e
        | None => length x
        end in
      rstrip (firstn p x) ++ skipn end_pos x
  | None => x
  end.

(** The text holds no semicolon and no comment opener. *)
Definition no_semicolon_no_comment (q : text) : Prop :=
  ~ In ";"%char q /\
  contains (py "--") q = false /\ contains (py "/*") q = false.

(** What [add_pagination] of [trendsql_kg] appends. *)
Definition kg_limit_clause (page page_size : Z) : text :=
  let page := if (page <? 1)%Z then 1%Z else page in
  let page_size := if (page_size <? 1)%Z then 50%Z else page_size in
  py " LIMIT " ++ format_int page_size
  ++ py " OFFSET " ++ format_int ((page - 1) * page_size).

(** The entity, or the character itself, that [_escape_html] writes for
    one character. *)
Definition escape_char (c : ascii) : text :=
  if eqc c "&" then py "&amp;"
  else if eqc c "<" then py "&lt;"
  else if eqc c ">" then py "&gt;"
  else if eqc c dquote then py "&quot;"
  else if eqc c "'" then py "&#39;"
  else [c].

(** The characters that carry markup in HTML text and attribute values. *)
Definition markup : list ascii := ["<"; ">"; dquote; "'"]%char.

(** * Properties *)

(** ** The tests of [tests/test_sql_safety.py] *)

Example test_safe_select_queries :
  forallb (fun q => is_safe (ensure_safe_select (py q)))
    [ "SELECT * FROM table";
      "SELECT column1, column2 FROM table WHERE condition";
      "WITH cte AS (SELECT * FROM table) SELECT * FROM cte";
      "EXPLAIN SELECT * FROM table";
      "SELECT * FROM table ORDER BY column1 LIMIT 10";
      "SELECT COUNT(*) FROM table";
      "select * from table"; "SeLeCt * FrOm table" ]%string = true.
Proof. vm_compute. reflexivity. Qed.

Example test_unsafe_queries :
  map (fun q => ensure_safe_select (py q))
    [ "INSERT INTO table VALUES (1, 2)"; "UPDATE table SET column = 1";
      "DROP TABLE table"; "InSeRt InTo table";
      "SELECT * FROM table; DROP TABLE users;";
      "SELECT * FROM table UNION SELECT * FROM users";
      "SELECT * FROM table UNION ALL SELECT * FROM users";
      "EXECUTE IMMEDIATE x"; "SHOW TABLES" ]%string
  = map (fun r => Ok (false, Some (py r)))
    [ "SQL contains forbidden keyword: INSERT";
      "SQL contains forbidden keyword: UPDATE";
      "SQL contains forbidden keyword: DROP";
      "SQL contains forbidden keyword: INSERT";
      "SQL contains forbidden keyword: DROP";
      "SQL contains forbidden keyword: UNION";
      "SQL contains forbidden keyword: UNION ALL";
      "SQL contains forbidden keyword: EXECUTE";
      "SQL must start with SELECT, WITH, or EXPLAIN" ]%string.
Proof. vm_compute. reflexivity. Qed.

(** ** Characters *)

Ltac by_cases_on_char c :=
  destruct c as [[] [] [] [] [] [] [] []]; vm_compute; try reflexivity;
  try discriminate; auto.

Lemma isspace_upper_char (c : ascii) : isspace (upper_char c) = isspace c.
Proof. by_cases_on_char c. Qed.

Lemma isspace_not_word (c : ascii) : isspace c = true -> isword c = false.
Proof. by_cases_on_char c. Qed.

Lemma eqc_eq (a b : ascii) : eqc a b = true <-> a = b.
Proof. apply Ascii.eqb_eq. Qed.

Lemma eqc_refl (a : ascii) : eqc a a = true.
Proof. apply Ascii.eqb_refl. Qed.

(** ** Prefixes and containment *)

Lemma starts_with_app (p s : text) : starts_with p (p ++ s) = true.
Proof.
  induction p as [|a p IH]; simpl; [reflexivity|].
  now rewrite eqc_refl, IH.
Qed.

Lemma starts_with_split (p s : text) :
  starts_with p s = true -> s = p ++ skipn (length p) s.
Proof.
  revert s; induction p as [|a p IH]; intros [|b s]; simpl; try easy.
  intros H. apply andb_prop in H as [Hab Hps].
  apply eqc_eq in Hab. subst b. f_equal. now apply IH.
Qed.

Lemma starts_with_iff (p s : text) :
  starts_with p s = true <-> exists post, s = p ++ post.
Proof.
  split.
  - intros H. eexists. now apply starts_with_split.
  - intros [post ->]. apply starts_with_app.
Qed.

Lemma skipn_length_app (p s : text) : skipn (length p) (p ++ s) = s.
Proof. induction p; simpl; auto. Qed.

Lemma contains_char (c : ascii) (s : text) :
  contains [c] s = true <-> In c s.
Proof.
  induction s as [|d s IH]; simpl.
  - split; [discriminate|tauto].
  - rewrite orb_true_iff, IH, andb_true_r, eqc_eq. intuition congruence.
Qed.

Lemma contains_prefix (p s : text) :
  starts_with p s = true -> contains p s = true.
Proof. destruct s; simpl; intros ->; reflexivity. Qed.

Lemma contains_app (p a b : text) : contains p (a ++ p ++ b) = true.
Proof.
  induction a as [|c a IH]; simpl.
  - apply contains_prefix, starts_with_app.
  - rewrite IH. apply orb_true_r.
Qed.

Lemma contains_iff (p s : text) :
  contains p s = true <-> exists a b, s = a ++ p ++ b.
Proof.
  split.
  - induction s as [|c s IH]; simpl.
    + rewrite orb_false_r. intros H. apply starts_with_iff in H as [b ->].
      now exists [], b.
    + intros H. apply orb_prop in H as [H|H].
      * apply starts_with_iff in H as [b ->]. now exists [], b.
      * destruct (IH H) as (a & b & ->). now exists (c :: a), b.
  - intros (a & b & ->). apply contains_app.
Qed.

(** ** Pagination parameters *)

(** C7: [validate_pagination_params] is total on the integers, returns a
    page of at least 1 and a page size between 1 and 1000, and returns an
    in-range argument unchanged; the method of [trendsql_kg], with its
    default [max_page_size] of 1000, does the same. *)
Theorem validate_pagination_params_clamps (page page_size : Z) :
  (let '(p, ps) := validate_pagination_params page page_size in
   (1 <= p /\ 1 <= ps <= 1000) /\
   (1 <= page -> p = page) /\
   (1 <= page_size <= 1000 -> ps = page_size))%Z
  /\
  (let '(p, ps) := Kg.validate_pagination_params page page_size 1000 in
   (1 <= p /\ 1 <= ps <= 1000) /\
   (1 <= page -> p = page) /\
   (1 <= page_size <= 1000 -> ps = page_size))%Z.
Proof.
  unfold validate_pagination_params, Kg.validate_pagination_params.
  split.
  - lia.
  - destruct (page <? 1)%Z eqn:Hp; destruct (page_size <? 1)%Z eqn:Hs;
      destruct (page_size >? 1000)%Z eqn:Hm; lia.
Qed.

Lemma validate_pagination_params_clamps_witness :
  validate_pagination_params 3 25 = (3, 25)%Z /\
  Kg.validate_pagination_params 3 25 1000 = (3, 25)%Z.
Proof.
  destruct (validate_pagination_params_clamps 3 25) as [H1 H2].
  destruct (validate_pagination_params 3 25) as [p ps].
  destruct (Kg.validate_pagination_params 3 25 1000) as [q qs].
  destruct H1 as (_ & Hp & Hps). destruct H2 as (_ & Hq & Hqs).
  rewrite Hp, Hps, Hq, Hqs by lia. split; reflexivity.
Defined.

(** Out-of-range arguments: the two implementations differ on a page size
    below 1 only, which [trendsql] clamps to 1 and [trendsql_kg] replaces
    by 50. *)
Example validate_pagination_params_out_of_range :
  validate_pagination_params (-3) 5000 = (1, 1000)%Z /\
  validate_pagination_params 0 0 = (1, 1)%Z /\
  Kg.validate_pagination_params (-3) 5000 1000 = (1, 1000)%Z /\
  Kg.validate_pagination_params 0 0 1000 = (1, 50)%Z.
Proof. repeat split. Qed.

(** ** The verdict *)

Lemma check_patterns_some (ps : list pattern) (u : text) (r : outcome verdict) :
  check_patterns ps u = Some r ->
  exists p k, In p ps /\ search_from (match_at p) None u = Some k /\
              r = Ok (false, Some (msg_forbidden ++ k)).
Proof.
  induction ps as [|p ps IH]; simpl; [discriminate|].
  unfold re_search.
  destruct (search_from (match_at p) None u) as [k|] eqn:E; simpl.
  - intros [= <-]. exists p, k. auto.
  - intros H. destruct (IH H) as (q & k & Hq & Hk & ->).
    exists q, k. auto.
Qed.

Lemma check_patterns_none (ps : list pattern) (u : text) :
  check_patterns ps u = None ->
  forall p, In p ps -> search_from (match_at p) None u = None.
Proof.
  induction ps as [|p ps IH]; simpl; [tauto|].
  unfold re_search.
  destruct (search_from (match_at p) None u) as [k|] eqn:E; simpl;
    [discriminate|].
  intros H q [<-|Hq]; auto.
Qed.

(** C8: on every text [ensure_safe_select] returns a verdict (it never
    raises), and the verdict carries a reason exactly when it rejects, the
    reason being a non-empty text. *)
Theorem ensure_safe_select_verdict (sql : text) :
  exists v, ensure_safe_select sql = Ok v /\ verdict_invariant v.
Proof.
  unfold ensure_safe_select, verdict_invariant.
  destruct (check_patterns dangerous_patterns (upper (strip sql)))
    as [r|] eqn:Hc.
  - apply check_patterns_some in Hc as (p & k & _ & _ & ->).
    eexists; split; [reflexivity|]. simpl.
    repeat split; try congruence; intros reason [= <-]; discriminate.
  - destruct (match_allowed_start _);
      [destruct (contains (py ";") sql);
       [|destruct (contains (py "--") sql || contains (py "/*") sql)]|];
      (eexists; split; [reflexivity|]); simpl;
      repeat split; try congruence; intros reason [= <-]; discriminate.
Qed.

(** ** Keywords as words *)

Lemma last_of_cons (prev : option ascii) (c : ascii) (w : text) :
  last_of prev (c :: w) = last_of (Some c) w.
Proof.
  unfold last_of. simpl. destruct (List.rev w); reflexivity.
Qed.

Lemma last_of_app (prev : option ascii) (a b : text) :
  last_of prev (a ++ b) = last_of (last_of prev a) b.
Proof.
  revert prev; induction a as [|c a IH]; intros prev; simpl.
  - reflexivity.
  - now rewrite !last_of_cons, IH.
Qed.

Lemma last_of_In (prev : option ascii) (w : text) (c : ascii) :
  w <> [] -> last_of prev w = Some c -> In c w.
Proof.
  unfold last_of. intros Hw. rewrite (in_rev w).
  destruct (List.rev w) eqn:E.
  - apply (f_equal (@List.rev ascii)) in E. rewrite rev_involutive in E.
    contradiction.
  - intros [= ->]. now left.
Qed.

Lemma wordc_last_of (p q : option ascii) (w : text) :
  wordc p = wordc q -> wordc (last_of p w) = wordc (last_of q w).
Proof. unfold last_of. destruct (List.rev w); auto. Qed.

Lemma last_of_nonempty (p q : option ascii) (w : text) :
  w <> [] -> last_of p w = last_of q w.
Proof.
  destruct w as [|c w]; [contradiction|]. intros _.
  now rewrite !last_of_cons.
Qed.

Lemma boundary_wordc (p q p' q' : option ascii) :
  wordc p = wordc p' -> wordc q = wordc q' ->
  boundary p q = boundary p' q'.
Proof. unfold boundary. now intros -> ->. Qed.

Lemma word_end_iff (prev : option ascii) (w s : text) :
  word_end prev w s = true <->
  exists post, s = w ++ post /\
               boundary (last_of prev w) (hd_error post) = true.
Proof.
  unfold word_end. rewrite andb_true_iff. split.
  - intros [Hs Hb]. apply starts_with_split in Hs.
    exists (skipn (length w) s). auto.
  - intros (post & -> & Hb).
    now rewrite starts_with_app, skipn_length_app.
Qed.

Lemma occurs_at_cons (prev : option ascii) (w : text) (c : ascii) (s : text) :
  occurs_at prev w (c :: s) <->
  (boundary prev (Some c) = true /\ word_end prev w (c :: s) = true) \/
  occurs_at (Some c) w s.
Proof.
  split.
  - intros ([|d pre] & post & Hs & Hb1 & Hb2); simpl in *.
    + left. rewrite <- Hs in Hb1. split; [exact Hb1|].
      apply word_end_iff. now exists post.
    + right. injection Hs as <- ->. rewrite last_of_cons in Hb1, Hb2.
      now exists pre, post.
  - intros [[Hb He]|(pre & post & -> & Hb1 & Hb2)].
    + apply word_end_iff in He as (post & Hs & Hb2).
      exists [], post. simpl. rewrite <- Hs. auto.
    + exists (c :: pre), post. rewrite !last_of_cons. auto.
Qed.

Lemma occurs_at_nil (prev : option ascii) (w : text) :
  w <> [] -> ~ occurs_at prev w [].
Proof.
  intros Hw (pre & post & Hs & _). symmetry in Hs.
  apply app_eq_nil in Hs as [_ Hs]. apply app_eq_nil in Hs as [Hs _].
  contradiction.
Qed.

Lemma occurs_at_prev (p q : option ascii) (w s : text) :
  wordc p = wordc q -> occurs_at p w s -> occurs_at q w s.
Proof.
  intros Hpq (pre & post & Hs & Hb1 & Hb2). exists pre, post.
  split; [exact Hs|]. split.
  - rewrite <- Hb1. apply boundary_wordc; auto using wordc_last_of.
  - rewrite <- Hb2. apply boundary_wordc; auto using wordc_last_of.
Qed.

(** *** [re.search] finds exactly the words that occur *)

Lemma search_from_sound (m : option ascii -> text -> option text)
  (s : text) : forall prev g,
  search_from m prev s = Some g ->
  exists pre post, s = pre ++ post /\ m (last_of prev pre) post = Some g.
Proof.
  induction s as [|c s IH]; intros prev g; simpl.
  - destruct (m prev []) eqn:E; [|discriminate].
    intros [= <-]. now exists [], [].
  - destruct (m prev (c :: s)) eqn:E.
    + intros [= <-]. now exists [], (c :: s).
    + intros H. destruct (IH _ _ H) as (pre & post & -> & Hm).
      exists (c :: pre), post. now rewrite last_of_cons.
Qed.

Lemma search_from_complete (m : option ascii -> text -> option text)
  (pre post : text) : forall prev,
  m (last_of prev pre) post <> None ->
  search_from m prev (pre ++ post) <> None.
Proof.
  induction pre as [|c pre IH]; intros prev; simpl.
  - unfold last_of; simpl. intros H.
    destruct post; simpl; destruct (m prev _); congruence.
  - rewrite last_of_cons. intros H.
    destruct (m prev (c :: pre ++ post)); [discriminate|]. now apply IH.
Qed.

Lemma kw_at_sound (alts : list text) (prev : option ascii) (s k : text) :
  kw_at alts prev s = Some k ->
  In k alts /\ boundary prev (hd_error s) = true /\
  word_end prev k s = true.
Proof.
  unfold kw_at, alt_at. destruct (boundary prev (hd_error s));
    [|discriminate].
  intros H. apply find_some in H. tauto.
Qed.

Lemma kw_at_complete (alts : list text) (prev : option ascii) (s k : text) :
  In k alts -> boundary prev (hd_error s) = true ->
  word_end prev k s = true -> kw_at alts prev s <> None.
Proof.
  unfold kw_at, alt_at. intros Hk -> He Hf.
  apply (find_none _ _ Hf) in Hk. congruence.
Qed.

Lemma kw_then_kw_at_sound (alts1 alts2 : list text) (prev : option ascii)
  (s k : text) :
  kw_then_kw_at alts1 alts2 prev s = Some k ->
  In k alts1 /\ boundary prev (hd_error s) = true /\
  word_end prev k s = true.
Proof.
  unfold kw_then_kw_at. destruct (boundary prev (hd_error s));
    [|discriminate].
  intros H. apply find_some in H as [Hk H].
  apply andb_prop in H. tauto.
Qed.

Lemma matched_word_occurs (m : option ascii -> text -> option text)
  (alts : list text) :
  (forall prev s k, m prev s = Some k ->
     In k alts /\ boundary prev (hd_error s) = true /\
     word_end prev k s = true) ->
  forall s k, search_from m None s = Some k ->
              In k alts /\ occurs_as_word k s.
Proof.
  intros Hm s k H.
  apply search_from_sound in H as (pre & post & -> & H).
  apply Hm in H as (Hk & Hb & He). split; [exact Hk|].
  apply word_end_iff in He as (post' & -> & He).
  now exists pre, post'.
Qed.

Lemma search_keyword_sound (alts : list text) (s k : text) :
  search_from (kw_at alts) None s = Some k ->
  In k alts /\ occurs_as_word k s.
Proof. apply matched_word_occurs, kw_at_sound. Qed.

Lemma search_keyword_complete (alts : list text) (s k : text) :
  In k alts -> occurs_as_word k s ->
  search_from (kw_at alts) None s <> None.
Proof.
  intros Hk (pre & post & -> & Hb1 & Hb2).
  apply search_from_complete.
  apply (@kw_at_complete alts _ _ k Hk Hb1).
  apply word_end_iff. now exists post.
Qed.

Lemma pattern_match_occurs (p : pattern) (s k : text) :
  search_from (match_at p) None s = Some k ->
  occurs_as_word k s /\
  match p with
  | Keyword alts => In k alts
  | KeywordThenKeyword alts1 _ => In k alts1
  end.
Proof.
  destruct p as [alts|alts1 alts2]; simpl; intros H.
  - apply search_keyword_sound in H. tauto.
  - apply (@matched_word_occurs _ alts1 (@kw_then_kw_at_sound alts1 alts2))
      in H.
    tauto.
Qed.

(** *** [strip] and [upper] keep the words of a text *)

Lemma lstrip_upper (s : text) : upper (lstrip s) = lstrip (upper s).
Proof.
  induction s as [|c s IH]; simpl; [reflexivity|].
  rewrite isspace_upper_char. destruct (isspace c); [exact IH|reflexivity].
Qed.

Lemma rstrip_upper (s : text) : upper (rstrip s) = rstrip (upper s).
Proof.
  induction s as [|c s IH]; simpl; [reflexivity|].
  rewrite <- IH, isspace_upper_char.
  destruct (rstrip s); simpl; [destruct (isspace c)|]; reflexivity.
Qed.

Lemma strip_upper (s : text) : upper (strip s) = strip (upper s).
Proof. unfold strip. now rewrite rstrip_upper, lstrip_upper. Qed.

Lemma rstrip_decompose (s : text) :
  exists r, s = rstrip s ++ r /\ spaces r.
Proof.
  induction s as [|c s (r & Hs & Hr)]; simpl.
  - exists []. split; [reflexivity|constructor].
  - destruct (rstrip s) as [|x xs] eqn:E.
    + simpl in Hs. subst r. destruct (isspace c) eqn:Hc.
      * exists (c :: s). split; [reflexivity|now constructor].
      * exists s. auto.
    + exists r. simpl. now rewrite Hs at 1.
Qed.

Lemma solid_head (w : text) :
  solid w = true -> exists c w', w = c :: w' /\ isspace c = false.
Proof.
  unfold solid. destruct w as [|c w']; [discriminate|].
  destruct (last_of None (c :: w')); [|discriminate].
  intros H. apply andb_prop in H as [H _]. apply negb_true_iff in H.
  now exists c, w'.
Qed.

Lemma solid_last (w : text) (prev : option ascii) :
  solid w = true -> exists d, last_of prev w = Some d /\ isspace d = false.
Proof.
  unfold solid. destruct w as [|c w']; [discriminate|].
  rewrite (last_of_nonempty prev None) by discriminate.
  destruct (last_of None (c :: w')) as [d|]; [|discriminate].
  intros H. apply andb_prop in H as [_ H]. apply negb_true_iff in H.
  now exists d.
Qed.

Lemma spaces_hd_not_word (r : text) : spaces r -> wordc (hd_error r) = false.
Proof.
  intros H. destruct H as [|c r' Hc _]; simpl; [reflexivity|].
  now apply isspace_not_word.
Qed.

Lemma spaces_In (r : text) (c : ascii) :
  spaces r -> In c r -> isspace c = true.
Proof. unfold spaces. rewrite Forall_forall. auto. Qed.

Lemma wordc_hd_app_spaces (post r : text) :
  spaces r -> wordc (hd_error (post ++ r)) = wordc (hd_error post).
Proof.
  intros Hr. destruct post; simpl; [|reflexivity].
  now apply spaces_hd_not_word.
Qed.

Lemma no_solid_word_in_spaces (prev : option ascii) (w r : text) :
  solid w = true -> spaces r -> ~ occurs_at prev w r.
Proof.
  intros Hw Hr (pre & post & -> & _).
  apply solid_head in Hw as (c & w' & -> & Hc).
  assert (isspace c = true); [|congruence].
  apply (spaces_In _ c Hr). apply in_or_app. right. now left.
Qed.

Lemma word_end_app_spaces (prev : option ascii) (w s r : text) :
  solid w = true -> spaces r ->
  (word_end prev w (s ++ r) = true <-> word_end prev w s = true).
Proof.
  intros Hw Hr. rewrite !word_end_iff. split.
  - intros (post & Hs & Hb).
    apply app_eq_app in Hs as (l & [[-> ->]|[-> ->]]).
    + exists l. split; [reflexivity|].
      rewrite <- Hb. apply boundary_wordc; [reflexivity|].
      symmetry. now apply wordc_hd_app_spaces.
    + destruct l as [|x l].
      * rewrite app_nil_r in *. exists []. rewrite app_nil_r.
        split; [reflexivity|].
        rewrite <- Hb. apply boundary_wordc; [reflexivity|].
        simpl. symmetry. now apply spaces_hd_not_word.
      * exfalso. destruct (solid_last _ prev Hw) as (d & Hd & Hsp).
        rewrite last_of_app in Hd.
        apply last_of_In in Hd; [|discriminate].
        assert (isspace d = true); [|congruence].
        apply (spaces_In _ d Hr). apply in_or_app. now left.
  - intros (post & -> & Hb). exists (post ++ r).
    rewrite app_assoc. split; [reflexivity|].
    rewrite <- Hb. apply boundary_wordc; [reflexivity|].
    now apply wordc_hd_app_spaces.
Qed.

Lemma occurs_at_app_spaces (w s r : text) :
  solid w = true -> spaces r ->
  forall prev, occurs_at prev w (s ++ r) <-> occurs_at prev w s.
Proof.
  intros Hw Hr. induction s as [|c s IH]; intros prev; simpl.
  - split; intros H; exfalso.
    + now apply (no_solid_word_in_spaces prev _ _ Hw Hr).
    + apply (occurs_at_nil prev w); [|exact H].
      apply solid_head in Hw as (? & ? & -> & _). discriminate.
  - rewrite !occurs_at_cons, IH.
    change (c :: s ++ r) with ((c :: s) ++ r).
    now rewrite (word_end_app_spaces prev _ (c :: s) _ Hw Hr).
Qed.

Lemma occurs_rstrip (w s : text) :
  solid w = true ->
  (occurs_as_word w (rstrip s) <-> occurs_as_word w s).
Proof.
  intros Hw. destruct (rstrip_decompose s) as (r & Hs & Hr).
  rewrite Hs at 2. symmetry. now apply occurs_at_app_spaces.
Qed.

Lemma occurs_lstrip (w s : text) :
  solid w = true ->
  (occurs_as_word w (lstrip s) <-> occurs_as_word w s).
Proof.
  intros Hw. unfold occurs_as_word.
  induction s as [|c s IH]; simpl; [reflexivity|].
  destruct (isspace c) eqn:Hc; [|reflexivity].
  rewrite IH, occurs_at_cons. split.
  - intros H. right. revert H. apply occurs_at_prev.
    simpl. symmetry. now apply isspace_not_word.
  - intros [[_ He]|H].
    + exfalso. apply word_end_iff in He as (post & He & _).
      apply solid_head in Hw as (d & w' & -> & Hd).
      injection He as ->. congruence.
    + revert H. apply occurs_at_prev. simpl. now apply isspace_not_word.
Qed.

(** The text [ensure_safe_select] searches, [sql.strip().upper()], holds
    the same words as [sql.upper()]. *)
Lemma occurs_normalized (w sql : text) :
  solid w = true ->
  (occurs_as_word w (upper (strip sql)) <-> occurs_as_word w (upper sql)).
Proof.
  intros Hw. rewrite strip_upper. unfold strip.
  now rewrite occurs_rstrip, occurs_lstrip.
Qed.

(** ** The deny list of [ensure_safe_select] *)

Lemma reported_keywords_solid (k : text) :
  In k reported_keywords -> solid k = true.
Proof.
  assert (H : forallb solid reported_keywords = true)
    by (vm_compute; reflexivity).
  rewrite forallb_forall in H. apply H.
Qed.

Lemma pattern_keywords_reported (p : pattern) (k : text) :
  In p dangerous_patterns ->
  match p with
  | Keyword alts => In k alts
  | KeywordThenKeyword alts1 _ => In k alts1
  end ->
  In k reported_keywords.
Proof.
  unfold dangerous_patterns, reported_keywords, denied_keywords.
  intros [<-|[<-|[<-|[]]]] Hk; rewrite !in_app_iff; tauto.
Qed.

(** A rejection by the loop over [dangerous_patterns] names a word of the
    text. *)
Lemma forbidden_reason_names_word (sql : text) (r : outcome verdict) :
  check_patterns dangerous_patterns (upper (strip sql)) = Some r ->
  exists k, In k reported_keywords /\ occurs_as_word k (upper sql) /\
            r = Ok (false, Some (msg_forbidden ++ k)).
Proof.
  intros H. apply check_patterns_some in H as (p & k & Hp & Hs & ->).
  apply pattern_match_occurs in Hs as [Hocc Hk].
  pose proof (pattern_keywords_reported p k Hp Hk) as Hr.
  exists k. split; [exact Hr|]. split; [|reflexivity].
  now apply (proj1 (occurs_normalized _ _ (reported_keywords_solid _ Hr))).
Qed.

(** A denied keyword that occurs as a word makes the loop reject, with a
    denied keyword of the text in the reason. *)
Lemma occurring_keyword_rejected (sql k : text) :
  In k denied_keywords -> occurs_as_word k (upper sql) ->
  exists k', In k' denied_keywords /\ occurs_as_word k' (upper sql) /\
             ensure_safe_select sql = Ok (false, Some (msg_forbidden ++ k')).
Proof.
  intros Hk Hocc.
  assert (Hsolid : forall w, In w denied_keywords -> solid w = true).
  { intros w Hw. apply reported_keywords_solid.
    unfold reported_keywords. apply in_or_app. now left. }
  apply (proj2 (occurs_normalized _ _ (Hsolid _ Hk))) in Hocc.
  unfold ensure_safe_select, dangerous_patterns. simpl check_patterns.
  unfold re_search. simpl match_at.
  destruct (search_from (kw_at forbidden_keywords) None (upper (strip sql)))
    as [k1|] eqn:E1; simpl.
  - apply search_keyword_sound in E1 as [H1 Ho1].
    assert (In k1 denied_keywords) by (apply in_or_app; now left).
    exists k1. split; [assumption|]. split; [|reflexivity].
    now apply (proj1 (occurs_normalized _ _ (Hsolid _ H))) in Ho1.
  - destruct (search_from (kw_at exec_keywords) None (upper (strip sql)))
      as [k2|] eqn:E2; simpl.
    + apply search_keyword_sound in E2 as [H2 Ho2].
      assert (In k2 denied_keywords) by (apply in_or_app; now right).
      exists k2. split; [assumption|]. split; [|reflexivity].
      now apply (proj1 (occurs_normalized _ _ (Hsolid _ H))) in Ho2.
    + exfalso. apply in_app_or in Hk as [Hk|Hk].
      * now apply (search_keyword_complete _ _ _ Hk Hocc).
      * now apply (search_keyword_complete _ _ _ Hk Hocc).
Qed.

(** No word of [alts] occurs in a text in which the search finds none. *)
Lemma search_none_no_occurrence (alts : list text) (s : text) :
  search_from (kw_at alts) None s = None ->
  forall k, In k alts -> ~ occurs_as_word k s.
Proof.
  intros Hs k Hk Hocc. now apply (search_keyword_complete _ _ _ Hk Hocc).
Qed.

Lemma no_reported_keyword_passes (sql : text) :
  no_reported_keyword sql ->
  check_patterns dangerous_patterns (upper (strip sql)) = None.
Proof.
  intros Hno.
  destruct (check_patterns dangerous_patterns (upper (strip sql)))
    as [r|] eqn:E; [|reflexivity].
  apply forbidden_reason_names_word in E as (k & Hk & Hocc & _).
  now destruct (Hno k Hk).
Qed.

(** ** The leading keyword *)

Lemma word_prefix_split (s : text) :
  exists rest, s = word_prefix s ++ rest /\ wordc (hd_error rest) = false.
Proof.
  induction s as [|c s (rest & Hs & Hr)]; simpl.
  - now exists [].
  - destruct (isword c) eqn:Hc.
    + exists rest. simpl. now rewrite <- Hs.
    + exists (c :: s). auto.
Qed.

Lemma word_prefix_app (k post : text) :
  forallb isword k = true -> wordc (hd_error post) = false ->
  word_prefix (k ++ post) = k.
Proof.
  intros Hk Hp. induction k as [|c k IH]; simpl in *.
  - destruct post as [|d post]; simpl in *; [reflexivity|]. now rewrite Hp.
  - apply andb_prop in Hk as [-> Hk]. now rewrite IH.
Qed.

Lemma wordy_last (k : text) (prev : option ascii) :
  wordy k = true -> wordc (last_of prev k) = true.
Proof.
  intros Hk. destruct k as [|c k]; [discriminate|].
  simpl in Hk. destruct (last_of prev (c :: k)) as [d|] eqn:E.
  - apply last_of_In in E; [|discriminate].
    change (forallb isword (c :: k) = true) in Hk.
    rewrite forallb_forall in Hk. now apply Hk.
  - unfold last_of in E. simpl in E.
    destruct (List.rev k ++ [c]) eqn:E'; [|discriminate].
    now destruct (List.rev k).
Qed.

Lemma wordy_forallb (k : text) : wordy k = true -> forallb isword k = true.
Proof. destruct k; [discriminate|auto]. Qed.

(** [^(w1|w2|...)\b] matches exactly when the leading word is one of the
    alternatives. *)
Lemma alt_at_start_iff (alts : list text) (s : text) :
  forallb wordy alts = true ->
  (alt_at alts None s <> None <-> In (word_prefix s) alts).
Proof.
  intros Halts. rewrite forallb_forall in Halts. unfold alt_at. split.
  - destruct (find _ alts) as [k|] eqn:E; [intros _|congruence].
    apply find_some in E as [Hk He].
    apply word_end_iff in He as (post & -> & Hb).
    specialize (Halts _ Hk).
    rewrite word_prefix_app; auto using wordy_forallb.
    unfold boundary in Hb. rewrite (wordy_last _ None Halts) in Hb.
    now destruct (wordc (hd_error post)).
  - intros Hin Hf. pose proof (find_none _ _ Hf _ Hin) as He.
    destruct (word_prefix_split s) as (rest & Hs & Hr).
    assert (word_end None (word_prefix s) s = true); [|congruence].
    apply word_end_iff. exists rest. split; [exact Hs|].
    unfold boundary. rewrite Hr, (wordy_last _ None); auto.
Qed.

Lemma match_allowed_start_iff (s : text) :
  match_allowed_start s <> None <-> In (word_prefix s) allowed_start.
Proof.
  rewrite <- (alt_at_start_iff allowed_start s) by (vm_compute; reflexivity).
  unfold match_allowed_start. destruct (alt_at allowed_start None s); simpl;
    split; congruence.
Qed.

(** The decision of [ensure_safe_select], rule by rule, once the loop over
    [dangerous_patterns] has fallen through. *)
Lemma passes_patterns_start (sql : text) :
  check_patterns dangerous_patterns (upper (strip sql)) = None ->
  ~ In (leading_keyword sql) allowed_start ->
  ensure_safe_select sql = Ok (false, Some msg_start).
Proof.
  unfold ensure_safe_select, leading_keyword. intros -> Hl.
  destruct (match_allowed_start (upper (strip sql))) eqn:E; [|reflexivity].
  exfalso. apply Hl, match_allowed_start_iff. congruence.
Qed.

Lemma passes_patterns_rest (sql : text) :
  check_patterns dangerous_patterns (upper (strip sql)) = None ->
  In (leading_keyword sql) allowed_start ->
  ensure_safe_select sql =
    if contains (py ";") sql then Ok (false, Some msg_semicolon)
    else if contains (py "--") sql || contains (py "/*") sql
         then Ok (false, Some msg_comment)
         else Ok (true, None).
Proof.
  unfold ensure_safe_select, leading_keyword. intros -> Hl.
  apply match_allowed_start_iff in Hl.
  destruct (match_allowed_start (upper (strip sql))); [reflexivity|].
  congruence.
Qed.

Ltac in_list := simpl; repeat first [left; reflexivity | right].

Lemma upper_app (a b : text) : upper (a ++ b) = upper a ++ upper b.
Proof. apply map_app. Qed.

(** ** [re.sub] *)

Lemma re_sub_cons (m : text -> option nat) (repl : text) (c : ascii)
  (s : text) :
  re_sub m repl (c :: s) =
  match m (c :: s) with
  | Some n => repl ++ re_sub m repl (skipn n s)
  | None => c :: re_sub m repl s
  end.
Proof. simp re_sub. destruct (m (c :: s)); reflexivity. Qed.

Lemma re_sub_nil (m : text -> option nat) (repl : text) :
  re_sub m repl [] = [].
Proof. now simp re_sub. Qed.

(** ** The regular expressions of [trendsql_kg] *)

Lemma isword_upper_char (c : ascii) : isword (upper_char c) = isword c.
Proof. by_cases_on_char c. Qed.

Lemma wordc_last_of_upper (p q : option ascii) (w : text) :
  wordc p = wordc q -> wordc (last_of p (upper w)) = wordc (last_of q w).
Proof.
  intros H. unfold last_of, upper. rewrite <- map_rev.
  destruct (List.rev w); simpl; [exact H|apply isword_upper_char].
Qed.

Lemma wordc_hd_upper (s : text) :
  wordc (hd_error (upper s)) = wordc (hd_error s).
Proof. destruct s; simpl; [reflexivity|apply isword_upper_char]. Qed.

Lemma upper_length (s t : text) : upper s = upper t -> length s = length t.
Proof.
  intros H. apply (f_equal (@length ascii)) in H.
  unfold upper in H. now rewrite !length_map in H.
Qed.

Lemma keyword_at_complete (alts : list text) (prev : option ascii)
  (k w post : text) :
  In k alts -> upper w = upper k ->
  boundary prev (hd_error (w ++ post)) = true ->
  boundary (last_of prev k) (hd_error post) = true ->
  Kg.keyword_at alts prev (w ++ post) <> None.
Proof.
  intros Hk Hw Hb1 Hb2. unfold Kg.keyword_at. rewrite Hb1. intros Hf.
  pose proof (find_none _ _ Hf _ Hk) as Hn. simpl in Hn.
  unfold Kg.starts_with_ci in Hn.
  rewrite upper_app, Hw, starts_with_app in Hn.
  rewrite <- (upper_length _ _ Hw), skipn_length_app, Hb2 in Hn.
  discriminate Hn.
Qed.

(** A word of [DANGEROUS_KEYWORDS] in the text, in either case, is found
    by the search. *)
Lemma dangerous_keyword_found (alts : list text) (k s : text) :
  In k alts -> k <> [] -> occurs_as_word (upper k) (upper s) ->
  search_from (Kg.keyword_at alts) None s <> None.
Proof.
  intros Hk Hne (pre & post & Hs & Hb1 & Hb2).
  apply map_eq_app in Hs as (pre' & r & -> & Hpre & Hr).
  apply map_eq_app in Hr as (w & post' & -> & Hw & Hpost).
  fold (upper pre') in Hpre. fold (upper w) in Hw. fold (upper post') in Hpost.
  subst pre post.
  apply search_from_complete.
  apply (keyword_at_complete _ _ k); auto.
  - etransitivity; [|exact Hb1]. apply boundary_wordc.
    + symmetry. now apply wordc_last_of_upper.
    + rewrite <- Hw, <- upper_app. symmetry. apply wordc_hd_upper.
  - etransitivity; [|exact Hb2]. apply boundary_wordc.
    + symmetry. rewrite (last_of_nonempty _ None (upper k)),
        (last_of_nonempty _ None k); auto.
      * now apply wordc_last_of_upper.
      * destruct k; [contradiction|discriminate].
    + symmetry. apply wordc_hd_upper.
Qed.

Lemma kg_rejects_dangerous_keyword (parsed_verdict : text -> verdict)
  (sql k : text) :
  In k Kg.DANGEROUS_KEYWORDS ->
  occurs_as_word (upper k) (upper (Kg._normalize_sql sql)) ->
  Kg.check_sql_safety parsed_verdict sql = (false, Some Kg.msg_dangerous).
Proof.
  intros Hk Hocc.
  assert (Hne : k <> []).
  { intros ->. revert Hk. vm_compute. intuition discriminate. }
  unfold Kg.check_sql_safety.
  destruct (strip sql) as [|c t] eqn:Es.
  - exfalso. unfold Kg._normalize_sql in Hocc. rewrite Es in Hocc.
    rewrite !re_sub_nil in Hocc.
    apply (occurs_at_nil None (upper k)); [|exact Hocc].
    destruct k; [contradiction|discriminate].
  - unfold Kg._has_dangerous_patterns.
    pose proof (dangerous_keyword_found _ _ _ Hk Hne Hocc) as Hf.
    destruct (search_from _ None (Kg._normalize_sql sql)); [|contradiction].
    reflexivity.
Qed.

(** ** Denied keywords *)

(** C1, as amended: the deny list of [ensure_safe_select] is INSERT,
    UPDATE, DELETE, DROP, TRUNCATE, ALTER, CREATE, REINDEX, VACUUM, GRANT,
    REVOKE, EXEC, EXECUTE and EXECUTE IMMEDIATE.  A text whose upper-case
    form holds one of them between word boundaries, inside a string literal
    or not, is rejected with the reason "SQL contains forbidden keyword: K",
    where K is a word of that list that occurs in the text.
    [check_sql_safety] of [trendsql_kg] rejects every text whose normalized
    form holds a word of its [DANGEROUS_KEYWORDS], in either case, with the
    one reason "Query contains dangerous SQL patterns", which names no
    keyword. *)
Theorem denied_keyword_rejected :
  (forall sql k : text,
     In k denied_keywords -> occurs_as_word k (upper sql) ->
     exists k', In k' denied_keywords /\ occurs_as_word k' (upper sql) /\
       ensure_safe_select sql = Ok (false, Some (msg_forbidden ++ k')))
  /\
  (forall (parsed_verdict : text -> verdict) (sql k : text),
     In k Kg.DANGEROUS_KEYWORDS ->
     occurs_as_word (upper k) (upper (Kg._normalize_sql sql)) ->
     Kg.check_sql_safety parsed_verdict sql = (false, Some Kg.msg_dangerous)).
Proof.
  split.
  - apply occurring_keyword_rejected.
  - apply kg_rejects_dangerous_keyword.
Qed.

Lemma denied_keyword_rejected_witness :
  (In (py "DROP") denied_keywords /\
   occurs_as_word (py "DROP") (upper (py "DROP TABLE topics")) /\
   exists k', In k' denied_keywords /\
              occurs_as_word k' (upper (py "DROP TABLE topics")) /\
              ensure_safe_select (py "DROP TABLE topics")
              = Ok (false, Some (msg_forbidden ++ k')))
  /\
  (In (py "COPY") Kg.DANGEROUS_KEYWORDS /\
   occurs_as_word (upper (py "COPY"))
     (upper (Kg._normalize_sql (py "EXPLAIN copy topics TO STDOUT"))) /\
   Kg.check_sql_safety (fun _ => (true, None))
     (py "EXPLAIN copy topics TO STDOUT")
   = (false, Some Kg.msg_dangerous)).
Proof.
  assert (H1 : In (py "DROP") denied_keywords) by (vm_compute; in_list).
  assert (H2 : occurs_as_word (py "DROP") (upper (py "DROP TABLE topics"))).
  { exists [], (py " TABLE TOPICS"). repeat split. }
  assert (H3 : In (py "COPY") Kg.DANGEROUS_KEYWORDS) by (vm_compute; in_list).
  assert (H4 : occurs_as_word (upper (py "COPY"))
            (upper (Kg._normalize_sql (py "EXPLAIN copy topics TO STDOUT")))).
  { exists (py "EXPLAIN "), (py " TOPICS TO STDOUT"). repeat split. }
  split.
  - split; [exact H1|]. split; [exact H2|].
    exact (proj1 denied_keyword_rejected (py "DROP TABLE topics")
             (py "DROP") H1 H2).
  - split; [exact H3|]. split; [exact H4|].
    exact (proj2 denied_keyword_rejected (fun _ => (true, None))
             (py "EXPLAIN copy topics TO STDOUT") (py "COPY") H3 H4).
Defined.

(** C1, the claim as stated fails: COPY, CALL and ROLLBACK stand as words
    outside any literal in these texts, and [ensure_safe_select] accepts
    each; [check_sql_safety] of [trendsql_kg] rejects "DROP TABLE topics"
    with a reason that does not name DROP. *)
Lemma unlisted_keyword_accepted :
  (occurs_as_word (py "COPY") (upper (py "EXPLAIN COPY topics TO STDOUT")) /\
   ensure_safe_select (py "EXPLAIN COPY topics TO STDOUT") = Ok (true, None))
  /\
  (occurs_as_word (py "CALL") (upper (py "WITH t AS (SELECT 1) CALL refresh()")) /\
   ensure_safe_select (py "WITH t AS (SELECT 1) CALL refresh()") = Ok (true, None))
  /\
  (occurs_as_word (py "ROLLBACK") (upper (py "SELECT 1 ROLLBACK")) /\
   ensure_safe_select (py "SELECT 1 ROLLBACK") = Ok (true, None))
  /\
  (Kg.check_sql_safety (fun _ => (true, None)) (py "DROP TABLE topics")
   = (false, Some (py "Query contains dangerous SQL patterns")) /\
   contains (py "DROP") (upper (py "Query contains dangerous SQL patterns"))
   = false).
Proof.
  repeat split.
  - exists (py "EXPLAIN "), (py " TOPICS TO STDOUT"). repeat split.
  - exists (py "WITH T AS (SELECT 1) "), (py " REFRESH()"). repeat split.
  - exists (py "SELECT 1 "), []. repeat split.
Qed.

(** ** Keywords inside string literals *)

Lemma occurs_between_quotes (k lit a b : text) :
  solid k = true -> occurs_as_word k lit ->
  occurs_as_word k (a ++ py "'" ++ lit ++ py "'" ++ b).
Proof.
  intros Hk (pre & post & -> & Hb1 & Hb2).
  destruct (solid_head _ Hk) as (c & k' & -> & _).
  exists (a ++ py "'" ++ pre), (post ++ py "'" ++ b).
  split; [now rewrite <- !app_assoc|]. split.
  - etransitivity; [|exact Hb1]. apply boundary_wordc; [|reflexivity].
    rewrite app_assoc, last_of_app. apply wordc_last_of.
    now rewrite last_of_app.
  - etransitivity; [|exact Hb2]. apply boundary_wordc.
    + now rewrite !last_of_cons.
    + destruct post; reflexivity.
Qed.

(** C2, the claim as stated fails: the text is rejected. *)
Lemma quoted_drop_rejected :
  is_safe (ensure_safe_select (py "SELECT 'DROP TABLE' AS note")) = false /\
  ensure_safe_select (py "SELECT 'DROP TABLE' AS note")
  = Ok (false, Some (py "SQL contains forbidden keyword: DROP")).
Proof. split; vm_compute; reflexivity. Qed.

(** C2, as amended: keyword matching is a search over the upper-cased raw
    text, so a denied keyword is rejected inside a quoted literal too: the
    input "SELECT 'DROP TABLE' AS note" is rejected with the reason "SQL
    contains forbidden keyword: DROP", and so is every text that holds,
    between single quotes, a literal in which a denied keyword stands as a
    word.  [check_sql_safety] of [trendsql_kg] rejects that input as well,
    by its regular expression over the raw text, before any tokenizing. *)
Theorem quoted_keyword_rejected :
  ensure_safe_select (py "SELECT 'DROP TABLE' AS note")
  = Ok (false, Some (py "SQL contains forbidden keyword: DROP"))
  /\
  (forall a lit b k : text,
    In k denied_keywords -> occurs_as_word k (upper lit) ->
    exists k', In k' denied_keywords /\
      ensure_safe_select (a ++ py "'" ++ lit ++ py "'" ++ b)
      = Ok (false, Some (msg_forbidden ++ k')))
  /\
  (forall parsed_verdict : text -> verdict,
     Kg.check_sql_safety parsed_verdict (py "SELECT 'DROP TABLE' AS note")
     = (false, Some (py "Query contains dangerous SQL patterns"))).
Proof.
  split; [vm_compute; reflexivity|].
  split; [|intros pv; vm_compute; reflexivity].
  intros a lit b k Hk Hocc.
  assert (Hs : solid k = true).
  { apply reported_keywords_solid. apply in_or_app. now left. }
  destruct (occurring_keyword_rejected
              (a ++ py "'" ++ lit ++ py "'" ++ b) k Hk) as (k' & H1 & _ & H2).
  - rewrite !upper_app. now apply occurs_between_quotes.
  - now exists k'.
Qed.

Lemma quoted_keyword_rejected_witness :
  In (py "DROP") denied_keywords /\
  occurs_as_word (py "DROP") (upper (py "DROP TABLE")) /\
  exists k', In k' denied_keywords /\
    ensure_safe_select
      (py "SELECT " ++ py "'" ++ py "DROP TABLE" ++ py "'" ++ py " AS note")
    = Ok (false, Some (msg_forbidden ++ k')).
Proof.
  assert (H1 : In (py "DROP") denied_keywords) by (vm_compute; in_list).
  assert (H2 : occurs_as_word (py "DROP") (upper (py "DROP TABLE"))).
  { exists [], (py " TABLE"). repeat split. }
  split; [exact H1|]. split; [exact H2|].
  exact (proj1 (proj2 quoted_keyword_rejected) (py "SELECT ")
           (py "DROP TABLE") (py " AS note") (py "DROP") H1 H2).
Defined.

(** ** The leading keyword rule *)

(** C4, as amended: a text whose first word, after [strip] and [upper]
    (comments are not skipped), is none of WITH, SELECT, EXPLAIN is
    rejected.  The reason is "SQL must start with SELECT, WITH, or EXPLAIN"
    unless a dangerous pattern matched first; then it is "SQL contains
    forbidden keyword: K" for a word K of the text. *)
Theorem leading_keyword_rule (sql : text) :
  ~ In (leading_keyword sql) allowed_start ->
  exists reason,
    ensure_safe_select sql = Ok (false, Some reason) /\
    (reason = msg_start \/
     exists k, In k reported_keywords /\ occurs_as_word k (upper sql) /\
               reason = msg_forbidden ++ k) /\
    (no_reported_keyword sql -> reason = msg_start).
Proof.
  intros Hl.
  destruct (check_patterns dangerous_patterns (upper (strip sql)))
    as [r|] eqn:Hc.
  - pose proof Hc as Hc'.
    apply forbidden_reason_names_word in Hc' as (k & Hk & Hocc & ->).
    exists (msg_forbidden ++ k). split.
    + unfold ensure_safe_select. now rewrite Hc.
    + split; [right; now exists k|].
      intros Hno. now destruct (Hno k Hk).
  - exists msg_start. split; [now apply passes_patterns_start|].
    split; [now left|reflexivity].
Qed.

Lemma leading_keyword_rule_witness :
  ~ In (leading_keyword (py "SHOW TABLES")) allowed_start /\
  exists reason,
    ensure_safe_select (py "SHOW TABLES") = Ok (false, Some reason) /\
    (reason = msg_start \/
     exists k, In k reported_keywords /\
               occurs_as_word k (upper (py "SHOW TABLES")) /\
               reason = msg_forbidden ++ k) /\
    (no_reported_keyword (py "SHOW TABLES") -> reason = msg_start).
Proof.
  assert (H : ~ In (leading_keyword (py "SHOW TABLES")) allowed_start).
  { vm_compute. intuition discriminate. }
  split; [exact H|].
  exact (leading_keyword_rule (py "SHOW TABLES") H).
Defined.

(** C4, the claim as stated fails: the first word of "DROP TABLE topics"
    is DROP, and the reason of the rejection is the forbidden keyword, not
    the leading-keyword message. *)
Lemma leading_keyword_reason_differs :
  (In (leading_keyword (py "DROP TABLE topics")) allowed_start -> False) /\
  ensure_safe_select (py "DROP TABLE topics")
  = Ok (false, Some (py "SQL contains forbidden keyword: DROP")) /\
  contains (py "must start with SELECT, WITH, or EXPLAIN")
           (py "SQL contains forbidden keyword: DROP") = false.
Proof.
  split; [vm_compute; intuition discriminate|].
  split; vm_compute; reflexivity.
Qed.

(** ** The order of the rules *)

(** C5, the claim as stated fails: the reason is the forbidden keyword and
    does not mention multiple statements. *)
Lemma drop_wins_over_semicolon :
  ensure_safe_select (py "SELECT * FROM topics; DROP TABLE topics;")
  = Ok (false, Some (py "SQL contains forbidden keyword: DROP")) /\
  contains (upper (py "multiple statements"))
           (upper (py "SQL contains forbidden keyword: DROP")) = false.
Proof. split; vm_compute; reflexivity. Qed.

(** C5, as amended: the rules fire in the order of the code, the first
    failing rule giving the reason: forbidden keywords, then the leading
    keyword, then the semicolon, then the comment markers.  The input
    "SELECT * FROM topics; DROP TABLE topics;" is rejected with the reason
    "SQL contains forbidden keyword: DROP"; [check_sql_safety] of
    [trendsql_kg] rejects it with "Query contains dangerous SQL patterns". *)
Theorem rule_order :
  ensure_safe_select (py "SELECT * FROM topics; DROP TABLE topics;")
  = Ok (false, Some (py "SQL contains forbidden keyword: DROP"))
  /\
  (forall sql k,
     In k denied_keywords -> occurs_as_word k (upper sql) ->
     exists k', In k' denied_keywords /\
       ensure_safe_select sql = Ok (false, Some (msg_forbidden ++ k')))
  /\
  (forall sql,
     no_reported_keyword sql ->
     ~ In (leading_keyword sql) allowed_start ->
     ensure_safe_select sql = Ok (false, Some msg_start))
  /\
  (forall sql,
     no_reported_keyword sql ->
     In (leading_keyword sql) allowed_start ->
     In ";"%char sql ->
     ensure_safe_select sql = Ok (false, Some msg_semicolon))
  /\
  (forall sql,
     no_reported_keyword sql ->
     In (leading_keyword sql) allowed_start ->
     ~ In ";"%char sql ->
     contains (py "--") sql = true \/ contains (py "/*") sql = true ->
     ensure_safe_select sql = Ok (false, Some msg_comment))
  /\
  (forall sql,
     no_reported_keyword sql ->
     In (leading_keyword sql) allowed_start ->
     ~ In ";"%char sql ->
     contains (py "--") sql = false -> contains (py "/*") sql = false ->
     ensure_safe_select sql = Ok (true, None))
  /\
  (forall parsed_verdict : text -> verdict,
     Kg.check_sql_safety parsed_verdict
       (py "SELECT * FROM topics; DROP TABLE topics;")
     = (false, Some (py "Query contains dangerous SQL patterns"))).
Proof.
  split; [vm_compute; reflexivity|].
  split.
  { intros sql k Hk Hocc.
    destruct (occurring_keyword_rejected sql k Hk Hocc) as (k' & H1 & _ & H2).
    now exists k'. }
  split.
  { intros sql Hno Hl.
    now apply passes_patterns_start; [apply no_reported_keyword_passes|]. }
  assert (Hsemi : forall sql, contains (py ";") sql = true <-> In ";"%char sql).
  { intros sql. apply contains_char. }
  split; [|split; [|split; [|intros pv; vm_compute; reflexivity]]];
    intros sql Hno Hl.
  - intros Hs. apply Hsemi in Hs.
    rewrite (passes_patterns_rest sql (no_reported_keyword_passes sql Hno) Hl).
    now rewrite Hs.
  - intros Hs Hc.
    rewrite (passes_patterns_rest sql (no_reported_keyword_passes sql Hno) Hl).
    destruct (contains (py ";") sql) eqn:E; [now apply Hsemi in E|].
    destruct Hc as [-> | ->]; [reflexivity|]. now rewrite orb_true_r.
  - intros Hs Hc1 Hc2.
    rewrite (passes_patterns_rest sql (no_reported_keyword_passes sql Hno) Hl).
    destruct (contains (py ";") sql) eqn:E; [now apply Hsemi in E|].
    now rewrite Hc1, Hc2.
Qed.

(** The text holds no reported keyword when the search finds none. *)
Lemma no_reported_keyword_by_search (sql : text) :
  search_from (kw_at reported_keywords) None (upper sql) = None ->
  no_reported_keyword sql.
Proof. intros H k Hk. now apply (search_none_no_occurrence _ _ H). Qed.

(** Each rule of [rule_order] has inputs: one text per rule. *)
Lemma rule_order_witness :
  ensure_safe_select (py "DROP TABLE topics; -- x")
  = Ok (false, Some (msg_forbidden ++ py "DROP")) /\
  ensure_safe_select (py "SHOW TABLES; -- x") = Ok (false, Some msg_start) /\
  ensure_safe_select (py "SELECT 1; -- x") = Ok (false, Some msg_semicolon) /\
  ensure_safe_select (py "SELECT 1 -- x") = Ok (false, Some msg_comment) /\
  ensure_safe_select (py "SELECT 1") = Ok (true, None).
Proof.
  destruct rule_order as (_ & R1 & R2 & R3 & R4 & R5 & _).
  split; [vm_compute; reflexivity|].
  split.
  { apply R2; [apply no_reported_keyword_by_search; reflexivity|].
    vm_compute. intuition discriminate. }
  split.
  { apply R3; [apply no_reported_keyword_by_search; reflexivity| |];
      vm_compute; in_list. }
  split.
  { apply R4; [apply no_reported_keyword_by_search; reflexivity| | |].
    - vm_compute; in_list.
    - vm_compute. intuition discriminate.
    - left. reflexivity. }
  apply R5; [apply no_reported_keyword_by_search; reflexivity| | | |].
  - vm_compute; in_list.
  - vm_compute. intuition discriminate.
  - reflexivity.
  - reflexivity.
Defined.

(** ** The semicolon rule *)

(** C10, the claim as stated fails on the reason: a text with a semicolon
    is rejected, but by the first rule that fails, which need not be the
    semicolon rule. *)
Lemma semicolon_reason_differs :
  In ";"%char (py "SELECT 1; DROP TABLE t") /\
  ensure_safe_select (py "SELECT 1; DROP TABLE t")
  = Ok (false, Some (py "SQL contains forbidden keyword: DROP")) /\
  (ensure_safe_select (py "SELECT 1; DROP TABLE t")
   = Ok (false, Some msg_semicolon) -> False).
Proof.
  split; [vm_compute; in_list|].
  split; [vm_compute; reflexivity|].
  vm_compute. discriminate.
Qed.

(** C10, as amended: [ensure_safe_select] rejects every text that holds a
    semicolon anywhere, inside a string literal too; the reason is
    "Multiple statements not allowed (semicolon detected)" when neither a
    dangerous pattern nor the leading-keyword rule fired first, as for
    "SELECT ';' AS c". *)
Theorem semicolon_rejected (sql : text) :
  In ";"%char sql ->
  exists reason,
    ensure_safe_select sql = Ok (false, Some reason) /\
    (no_reported_keyword sql -> In (leading_keyword sql) allowed_start ->
     reason = msg_semicolon).
Proof.
  intros Hs.
  destruct (check_patterns dangerous_patterns (upper (strip sql)))
    as [r|] eqn:Hc.
  - pose proof Hc as Hc'.
    apply forbidden_reason_names_word in Hc' as (k & Hk & Hocc & ->).
    exists (msg_forbidden ++ k). split.
    + unfold ensure_safe_select. now rewrite Hc.
    + intros Hno. now destruct (Hno k Hk).
  - destruct (in_dec (list_eq_dec ascii_dec) (leading_keyword sql)
                allowed_start) as [Hl|Hl].
    + exists msg_semicolon. rewrite (passes_patterns_rest sql Hc Hl).
      apply contains_char in Hs. change (py ";") with [";"%char].
      now rewrite Hs.
    + exists msg_start. split; [now apply passes_patterns_start|].
      intros _ Hl'. contradiction.
Qed.

Lemma semicolon_rejected_witness :
  In ";"%char (py "SELECT ';' AS c") /\
  ensure_safe_select (py "SELECT ';' AS c") = Ok (false, Some msg_semicolon).
Proof.
  assert (H : In ";"%char (py "SELECT ';' AS c")) by (vm_compute; in_list).
  split; [exact H|].
  destruct (semicolon_rejected (py "SELECT ';' AS c") H) as (reason & Hr & Hm).
  rewrite Hr. rewrite Hm; [reflexivity| |].
  - apply no_reported_keyword_by_search. reflexivity.
  - vm_compute; in_list.
Defined.

(** ** The sanitizer *)

Lemma contains_cons_false (p : text) (c : ascii) (s : text) :
  contains p (c :: s) = false ->
  starts_with p (c :: s) = false /\ contains p s = false.
Proof. simpl. apply orb_false_elim. Qed.

(** A pass leaves a text without its opener unchanged. *)
Lemma line_pass_id (t : text) :
  contains (py "--") t = false -> re_sub line_comment_at [] t = t.
Proof.
  induction t as [|c t IH]; intros H; [apply re_sub_nil|].
  apply contains_cons_false in H as [H1 H2].
  rewrite re_sub_cons.
  assert (line_comment_at (c :: t) = None) as ->
    by (unfold line_comment_at; now rewrite H1).
  now rewrite IH.
Qed.

Lemma block_pass_id (t : text) :
  contains (py "/*") t = false -> re_sub block_comment_at [] t = t.
Proof.
  induction t as [|c t IH]; intros H; [apply re_sub_nil|].
  apply contains_cons_false in H as [H1 H2].
  rewrite re_sub_cons.
  assert (block_comment_at (c :: t) = None) as ->
    by (unfold block_comment_at; now rewrite H1).
  now rewrite IH.
Qed.

Lemma starts_with_cons (a : ascii) (p : text) (b : ascii) (s : text) :
  starts_with (a :: p) (b :: s) = eqc a b && starts_with p s.
Proof. reflexivity. Qed.

Lemma contains_cons (p : text) (c : ascii) (s : text) :
  contains p (c :: s) = starts_with p (c :: s) || contains p s.
Proof. reflexivity. Qed.

(** The first pass leaves no [--] behind, wherever it stood. *)
Lemma line_pass_head (s : text) :
  starts_with (py "-") s = false ->
  starts_with (py "-") (re_sub line_comment_at [] s) = false.
Proof.
  destruct s as [|d s]; intros H; [now rewrite re_sub_nil|].
  change (py "-") with ["-"%char] in *. rewrite starts_with_cons in H.
  rewrite re_sub_cons.
  assert (line_comment_at (d :: s) = None) as ->.
  { unfold line_comment_at. change (py "--") with ("-"%char :: ["-"%char]).
    rewrite starts_with_cons.
    destruct (eqc "-" d); [discriminate H|reflexivity]. }
  now rewrite starts_with_cons.
Qed.

Lemma line_pass_removes_all (s : text) :
  contains (py "--") (re_sub line_comment_at [] s) = false.
Proof.
  remember (length s) as n eqn:Hn. revert s Hn.
  induction n as [n IH] using lt_wf_ind. intros [|c s] Hn.
  - now rewrite re_sub_nil.
  - rewrite re_sub_cons.
    destruct (starts_with (py "--") (c :: s)) eqn:E.
    + assert (line_comment_at (c :: s)
              = Some (1 + line_length (skipn 2 (c :: s)))) as ->
        by (unfold line_comment_at; now rewrite E).
      apply (IH (length (skipn (1 + line_length (skipn 2 (c :: s))) s)));
        [|reflexivity].
      subst n. rewrite length_skipn. simpl length. lia.
    + assert (line_comment_at (c :: s) = None) as ->
        by (unfold line_comment_at; now rewrite E).
      rewrite contains_cons.
      rewrite (IH (length s)), orb_false_r;
        [|subst n; simpl; lia|reflexivity].
      change (py "--") with ("-"%char :: py "-") in *.
      rewrite starts_with_cons in *.
      destruct (eqc "-" c); [|reflexivity].
      apply line_pass_head. exact E.
Qed.

(** *** White space *)

Lemma space_run_skip (s : text) :
  starts_with_space (skipn (space_run s) s) = false.
Proof.
  induction s as [|c s IH]; simpl; [reflexivity|].
  destruct (isspace c) eqn:E; simpl; [exact IH|exact E].
Qed.

Lemma spaces_pass_head (s : text) :
  starts_with_space s = false ->
  starts_with_space (re_sub spaces_at (py " ") s) = false.
Proof.
  destruct s as [|d s]; intros H; [now rewrite re_sub_nil|].
  rewrite re_sub_cons. simpl in *. now rewrite H.
Qed.

Lemma spaces_pass_single (s : text) :
  single_spaced (re_sub spaces_at (py " ") s) = true.
Proof.
  remember (length s) as n eqn:Hn. revert s Hn.
  induction n as [n IH] using lt_wf_ind. intros [|c s] Hn.
  - now rewrite re_sub_nil.
  - rewrite re_sub_cons. simpl spaces_at.
    destruct (isspace c) eqn:E.
    + change (py " " ++ ?x) with (" "%char :: x). simpl single_spaced.
      rewrite spaces_pass_head by apply space_run_skip. simpl.
      apply (IH (length (skipn (space_run s) s))); [|reflexivity].
      subst n. rewrite length_skipn. simpl. lia.
    + simpl. rewrite E. simpl.
      apply (IH (length s)); [subst n; simpl; lia|reflexivity].
Qed.

Lemma spaces_pass_id (t : text) :
  single_spaced t = true -> re_sub spaces_at (py " ") t = t.
Proof.
  induction t as [|c t IH]; intros H; [apply re_sub_nil|].
  simpl in H. apply andb_prop in H as [H1 H2].
  rewrite re_sub_cons.
  change (spaces_at (c :: t))
    with (if isspace c then Some (space_run t) else None).
  destruct (isspace c) eqn:E.
  - apply andb_prop in H1 as [Hc Hs]. apply eqc_eq in Hc. subst c.
    apply negb_true_iff in Hs.
    assert (space_run t = 0) as ->.
    { destruct t as [|d t]; simpl in *; [reflexivity|]. now rewrite Hs. }
    change (skipn 0 t) with t. rewrite IH by assumption. reflexivity.
  - now rewrite IH.
Qed.

Lemma rstrip_head (s : text) (x : ascii) (xs : text) :
  rstrip s = x :: xs -> exists ys, s = x :: ys.
Proof.
  destruct s as [|c s]; simpl; [discriminate|].
  destruct (rstrip s); [destruct (isspace c)|]; intros [= -> _]; eauto.
Qed.

Lemma starts_with_space_lstrip (s : text) :
  starts_with_space (lstrip s) = false.
Proof.
  induction s as [|c s IH]; simpl; [reflexivity|].
  destruct (isspace c) eqn:E; [exact IH|exact E].
Qed.

Lemma lstrip_id (s : text) : starts_with_space s = false -> lstrip s = s.
Proof. destruct s as [|c s]; simpl; [reflexivity|]. now intros ->. Qed.

Lemma starts_with_space_rstrip (s : text) :
  starts_with_space s = false -> starts_with_space (rstrip s) = false.
Proof.
  intros H. destruct (rstrip s) as [|x xs] eqn:E; [reflexivity|].
  apply rstrip_head in E as (ys & ->). exact H.
Qed.

Lemma rstrip_idem (s : text) : rstrip (rstrip s) = rstrip s.
Proof.
  induction s as [|c s IH]; simpl; [reflexivity|].
  destruct (rstrip s) as [|x xs] eqn:E.
  - destruct (isspace c) eqn:Hc; simpl; [reflexivity|]. now rewrite Hc.
  - change (rstrip (c :: x :: xs)) with
      (match rstrip (x :: xs) with
       | [] => if isspace c then [] else [c]
       | r => c :: r
       end).
    now rewrite IH.
Qed.

Lemma strip_idem (s : text) : strip (strip s) = strip s.
Proof.
  unfold strip. rewrite (lstrip_id (rstrip (lstrip s))).
  - apply rstrip_idem.
  - apply starts_with_space_rstrip, starts_with_space_lstrip.
Qed.

Lemma single_spaced_tail (c : ascii) (s : text) :
  single_spaced (c :: s) = true -> single_spaced s = true.
Proof. simpl. intros H. now apply andb_prop in H. Qed.

Lemma single_spaced_lstrip (s : text) :
  single_spaced s = true -> single_spaced (lstrip s) = true.
Proof.
  induction s as [|c s IH]; [reflexivity|]. intros H. simpl lstrip.
  destruct (isspace c); [|exact H].
  apply IH. now apply single_spaced_tail in H.
Qed.

Lemma single_spaced_rstrip (s : text) :
  single_spaced s = true -> single_spaced (rstrip s) = true.
Proof.
  induction s as [|c s IH]; [reflexivity|]. intros H.
  pose proof (IH (single_spaced_tail _ _ H)) as IH'.
  simpl rstrip. destruct (rstrip s) as [|x xs] eqn:E.
  - destruct (isspace c) eqn:Hc; simpl; [reflexivity|]. now rewrite Hc.
  - apply rstrip_head in E as (ys & ->).
    simpl in H |- *. apply andb_prop in H as [H _].
    rewrite H. exact IH'.
Qed.

Lemma sanitized_single_spaced (s : text) :
  single_spaced (sanitize_sql s) = true.
Proof.
  unfold sanitize_sql, strip.
  apply single_spaced_rstrip, single_spaced_lstrip, spaces_pass_single.
Qed.

(** C9, the claim as stated fails: removing the block comment of
    "SELECT 1 -/**/- 2" leaves a line comment, which a second pass
    removes. *)
Lemma sanitize_twice_differs :
  sanitize_sql (py "SELECT 1 -/**/- 2") = py "SELECT 1 -- 2" /\
  sanitize_sql (sanitize_sql (py "SELECT 1 -/**/- 2")) = py "SELECT 1".
Proof. split; vm_compute; reflexivity. Qed.

(** C9, as amended: [sanitize_sql] is idempotent on every text whose
    sanitized form holds neither [--] nor [/*], that is, whenever removing
    the comments has not brought a new comment opener together. *)
Theorem sanitize_idempotent (s : text) :
  contains (py "--") (sanitize_sql s) = false ->
  contains (py "/*") (sanitize_sql s) = false ->
  sanitize_sql (sanitize_sql s) = sanitize_sql s.
Proof.
  intros H1 H2. unfold sanitize_sql at 1.
  rewrite (line_pass_id _ H1), (block_pass_id _ H2).
  rewrite (spaces_pass_id _ (sanitized_single_spaced s)).
  unfold sanitize_sql. apply strip_idem.
Qed.

Lemma sanitize_idempotent_witness :
  contains (py "--")
    (sanitize_sql (py "SELECT * FROM t /* c */ WHERE id = 1 -- x")) = false /\
  contains (py "/*")
    (sanitize_sql (py "SELECT * FROM t /* c */ WHERE id = 1 -- x")) = false /\
  sanitize_sql (sanitize_sql (py "SELECT * FROM t /* c */ WHERE id = 1 -- x"))
  = sanitize_sql (py "SELECT * FROM t /* c */ WHERE id = 1 -- x").
Proof.
  assert (H1 : contains (py "--")
            (sanitize_sql (py "SELECT * FROM t /* c */ WHERE id = 1 -- x"))
          = false) by (vm_compute; reflexivity).
  assert (H2 : contains (py "/*")
            (sanitize_sql (py "SELECT * FROM t /* c */ WHERE id = 1 -- x"))
          = false) by (vm_compute; reflexivity).
  split; [exact H1|]. split; [exact H2|].
  exact (sanitize_idempotent _ H1 H2).
Defined.

(** ** String literals in the sanitizer *)

(** C3, the claim as stated fails: the literal is cut at its [--]. *)
Lemma literal_cut_by_sanitize :
  sanitize_sql (py "SELECT * FROM t WHERE name = '--not a comment'")
  = py "SELECT * FROM t WHERE name = '" /\
  contains (py "'--not a comment'")
    (sanitize_sql (py "SELECT * FROM t WHERE name = '--not a comment'"))
  = false.
Proof. split; vm_compute; reflexivity. Qed.

(** C3, as amended: [sanitize_sql] is not quote-aware.  Its first pass
    deletes every [--] up to the end of its line, inside a string literal
    or not, so that no [--] is left after that pass; for the input
    "SELECT * FROM t WHERE name = '--not a comment'" the result is
    "SELECT * FROM t WHERE name = '" and the subsequent safety check
    returns safe == true. *)
Theorem sanitize_not_quote_aware :
  sanitize_sql (py "SELECT * FROM t WHERE name = '--not a comment'")
  = py "SELECT * FROM t WHERE name = '"
  /\
  ensure_safe_select
    (sanitize_sql (py "SELECT * FROM t WHERE name = '--not a comment'"))
  = Ok (true, None)
  /\
  forall s, contains (py "--") (re_sub line_comment_at [] s) = false.
Proof.
  split; [vm_compute; reflexivity|].
  split; [vm_compute; reflexivity|].
  apply line_pass_removes_all.
Qed.

(** ** Pagination *)








Lemma starts_with_absent (h : ascii) (p : text) (c : ascii) (s : text) :
  c <> h -> starts_with (h :: p) (c :: s) = false.
Proof.
  intros H. rewrite starts_with_cons.
  destruct (eqc h c) eqn:E; [|reflexivity].
  apply eqc_eq in E. congruence.
Qed.

Lemma str_find_absent (h : ascii) (p s : text) :
  ~ In h s -> str_find (h :: p) s = None.
Proof.
  induction s as [|c s IH]; intros H; [reflexivity|].
  change (str_find (h :: p) (c :: s))
    with (if starts_with (h :: p) (c :: s) then Some 0
          else option_map S (str_find (h :: p) s)).
  rewrite starts_with_absent, IH; [reflexivity| |]; simpl in H; tauto.
Qed.



Lemma firstn_length_app (a b : text) : firstn (length a) (a ++ b) = a.
Proof.
  induction a as [|c a IH]; simpl; [now destruct b|]. now rewrite IH.
Qed.

Lemma rstrip_app_space (a : text) (c : ascii) :
  isspace c = true -> rstrip (a ++ [c]) = rstrip a.
Proof.
  intros Hc. induction a as [|d a IH]; simpl; [now rewrite Hc|].
  now rewrite IH.
Qed.

Lemma add_pagination_eq (sql : text) (page page_size : Z) :
  add_pagination sql page page_size
  = rstrip (without_limit sql) ++ limit_clause page page_size.
Proof. reflexivity. Qed.



Example add_pagination_page_3 :
  add_pagination (py "SELECT * FROM t") 3 25
  = py "SELECT * FROM t LIMIT 25 OFFSET 50".
Proof. vm_compute. reflexivity. Qed.

Example add_pagination_twice :
  add_pagination (add_pagination (py "SELECT * FROM t ORDER BY x") 1 10) 2 20
  = py "SELECT * FROM t ORDER BY x LIMIT 20 OFFSET 20".
Proof. vm_compute. reflexivity. Qed.

(** C6: [add_pagination] of [trendsql] cuts from the last LIMIT of the
    text, wherever it stands, to the next semicolon or the end.  On
    "SELECT * FROM (SELECT id FROM t LIMIT 5) AS s", which the sanitizer
    leaves as it is and the safety check accepts, the LIMIT of the
    parenthesized subquery is removed together with the closing
    parenthesis and the alias, against the claim.
    [_remove_existing_pagination] of [trendsql_kg] removes a trailing
    clause only and leaves that subquery untouched. *)
Theorem add_pagination_cuts_subquery_limit :
  sanitize_sql (py "SELECT * FROM (SELECT id FROM t LIMIT 5) AS s")
  = py "SELECT * FROM (SELECT id FROM t LIMIT 5) AS s"
  /\
  ensure_safe_select (py "SELECT * FROM (SELECT id FROM t LIMIT 5) AS s")
  = Ok (true, None)
  /\
  add_pagination (py "SELECT * FROM (SELECT id FROM t LIMIT 5) AS s") 1 10
  = py "SELECT * FROM (SELECT id FROM t LIMIT 10 OFFSET 0"
  /\
  Kg.add_pagination (py "SELECT * FROM (SELECT id FROM t LIMIT 5) AS s") 1 10
  = py "SELECT * FROM (SELECT id FROM t LIMIT 5) AS s LIMIT 10 OFFSET 0".
Proof. repeat split; vm_compute; reflexivity. Qed.

(** ** The queries [ensure_safe_select] accepts *)

Lemma dot_star_kw_eq (alts : list text) (prev : option ascii) (s : text) :
  dot_star_kw alts prev s =
  match kw_at alts prev s with
  | Some _ => true
  | None =>
      match s with
      | [] => false
      | c :: s' => negb (eqc c newline) && dot_star_kw alts (Some c) s'
      end
  end.
Proof. destruct s; reflexivity. Qed.

Lemma dot_star_kw_sound (alts : list text) (s : text) : forall prev,
  dot_star_kw alts prev s = true ->
  exists t, In t alts /\ occurs_on_line prev t s.
Proof.
  induction s as [|c s IH]; intros prev H; rewrite dot_star_kw_eq in H.
  - destruct (kw_at alts prev []) as [k|] eqn:E; [|discriminate H].
    apply kw_at_sound in E. destruct E as (Hin & Hb & Hw).
    apply word_end_iff in Hw. destruct Hw as (post & Hs & Hb').
    exists k. split; [exact Hin|]. exists [], post. simpl.
    rewrite <- Hs. auto.
  - destruct (kw_at alts prev (c :: s)) as [k|] eqn:E.
    + apply kw_at_sound in E. destruct E as (Hin & Hb & Hw).
      apply word_end_iff in Hw. destruct Hw as (post & Hs & Hb').
      exists k. split; [exact Hin|]. exists [], post.
      change ([] ++ k ++ post) with (k ++ post). rewrite <- Hs.
      repeat split; auto.
    + apply andb_true_iff in H. destruct H as [Hc H].
      destruct (IH _ H) as (t & Hin & pre & post & Hs & Hnl & Hb1 & Hb2).
      exists t. split; [exact Hin|]. exists (c :: pre), post.
      rewrite !last_of_cons. repeat split; auto.
      * now rewrite Hs.
      * intros [Heq|Hin']; [|now apply Hnl].
        subst c. now rewrite eqc_refl in Hc.
Qed.

Lemma dot_star_kw_complete (alts : list text) (t s : text)
  (prev : option ascii) :
  In t alts -> occurs_on_line prev t s -> dot_star_kw alts prev s = true.
Proof.
  intros Hin (pre & post & Hs & Hnl & Hb1 & Hb2). subst s.
  revert prev Hb1 Hb2. induction pre as [|c pre IH]; intros prev Hb1 Hb2;
    rewrite dot_star_kw_eq.
  - destruct (kw_at alts prev ([] ++ t ++ post)) eqn:E; [reflexivity|].
    exfalso. revert E. apply (kw_at_complete alts prev _ t Hin Hb1).
    apply word_end_iff. exists post. auto.
  - destruct (kw_at alts prev ((c :: pre) ++ t ++ post)); [reflexivity|].
    change ((c :: pre) ++ t ++ post) with (c :: pre ++ t ++ post).
    cbv iota. rewrite last_of_cons in Hb1, Hb2.
    rewrite IH; auto.
    + destruct (eqc c newline) eqn:E; [|reflexivity].
      apply eqc_eq in E. exfalso. apply Hnl. now left.
    + intros H. apply Hnl. now right.
Qed.

Lemma kw_then_kw_at_inv (alts1 alts2 : list text) (prev : option ascii)
  (s k : text) :
  kw_then_kw_at alts1 alts2 prev s = Some k ->
  In k alts1 /\ boundary prev (hd_error s) = true /\
  word_end prev k s = true /\
  dot_star_kw alts2 (last_of prev k) (skipn (length k) s) = true.
Proof.
  unfold kw_then_kw_at. destruct (boundary prev (hd_error s)); [|discriminate].
  intros H. apply find_some in H. destruct H as [Hin H].
  apply andb_true_iff in H. tauto.
Qed.

Lemma kw_then_kw_at_complete (alts1 alts2 : list text) (prev : option ascii)
  (s u : text) :
  In u alts1 -> boundary prev (hd_error s) = true ->
  word_end prev u s = true ->
  dot_star_kw alts2 (last_of prev u) (skipn (length u) s) = true ->
  kw_then_kw_at alts1 alts2 prev s <> None.
Proof.
  intros Hin Hb Hw Hd. unfold kw_then_kw_at. rewrite Hb. intros E.
  pose proof (find_none _ _ E u Hin) as F. cbv beta in F.
  rewrite Hw, Hd in F. discriminate F.
Qed.

Lemma union_search_sound (s k : text) :
  search_from (kw_then_kw_at union_keywords union_targets) None s = Some k ->
  union_then_target s.
Proof.
  intros H. apply search_from_sound in H.
  destruct H as (pre & post & Hs & H).
  apply kw_then_kw_at_inv in H. destruct H as (Hin & Hb & Hw & Hd).
  apply word_end_iff in Hw. destruct Hw as (rest & Hp & Hb').
  subst post. rewrite skipn_length_app in Hd.
  apply dot_star_kw_sound in Hd. destruct Hd as (t & Ht & Ho).
  exists k, t, pre, rest. auto 10.
Qed.

Lemma union_search_complete (s : text) :
  union_then_target s ->
  search_from (kw_then_kw_at union_keywords union_targets) None s <> None.
Proof.
  intros (u & t & pre & rest & Hu & Ht & Hs & Hb1 & Hb2 & Ho). subst s.
  apply search_from_complete.
  apply (kw_then_kw_at_complete _ _ _ _ u Hu Hb1).
  - apply word_end_iff. exists rest. auto.
  - rewrite skipn_length_app. now apply (dot_star_kw_complete _ t).
Qed.

Lemma check_patterns_none_intro (ps : list pattern) (u : text) :
  (forall p, In p ps -> search_from (match_at p) None u = None) ->
  check_patterns ps u = None.
Proof.
  induction ps as [|p ps IH]; intros H; [reflexivity|]. simpl.
  unfold re_search. rewrite (H p (or_introl eq_refl)). simpl.
  apply IH. intros q Hq. apply H. now right.
Qed.

Lemma denied_in_reported (k : text) :
  In k denied_keywords -> In k reported_keywords.
Proof. intros H. apply in_or_app. now left. Qed.

Lemma pattern_search_none (sql : text) :
  (forall k, In k denied_keywords -> ~ occurs_as_word k (upper sql)) ->
  ~ union_then_target (upper (strip sql)) ->
  forall p, In p dangerous_patterns ->
    search_from (match_at p) None (upper (strip sql)) = None.
Proof.
  intros Hd Hu p Hp.
  destruct (search_from (match_at p) None (upper (strip sql))) as [k|] eqn:E;
    [exfalso|reflexivity].
  destruct Hp as [<-|[<-|[<-|[]]]].
  - apply search_keyword_sound in E. destruct E as [Hin Ho].
    assert (Hk : In k denied_keywords) by (apply in_or_app; now left).
    apply (Hd k Hk), occurs_normalized; [|exact Ho].
    now apply reported_keywords_solid, denied_in_reported.
  - apply search_keyword_sound in E. destruct E as [Hin Ho].
    assert (Hk : In k denied_keywords) by (apply in_or_app; now right).
    apply (Hd k Hk), occurs_normalized; [|exact Ho].
    now apply reported_keywords_solid, denied_in_reported.
  - apply Hu. exact (union_search_sound _ _ E).
Qed.

Lemma accepted_inv (sql : text) (reason : option text) :
  ensure_safe_select sql = Ok (true, reason) ->
  reason = None /\
  In (leading_keyword sql) allowed_start /\
  (forall k, In k denied_keywords -> ~ occurs_as_word k (upper sql)) /\
  ~ union_then_target (upper (strip sql)) /\
  ~ In ";"%char sql /\
  contains (py "--") sql = false /\ contains (py "/*") sql = false.
Proof.
  intros H. unfold ensure_safe_select in H.
  destruct (check_patterns dangerous_patterns (upper (strip sql)))
    as [r|] eqn:E.
  { apply check_patterns_some in E. destruct E as (p & k & _ & _ & ->).
    discriminate H. }
  pose proof (check_patterns_none _ _ E) as Hn.
  destruct (match_allowed_start (upper (strip sql))) eqn:Es;
    [|discriminate H].
  destruct (contains (py ";") sql) eqn:E1; [discriminate H|].
  destruct (contains (py "--") sql) eqn:E2; [discriminate H|].
  destruct (contains (py "/*") sql) eqn:E3; [discriminate H|].
  change (Ok (true, None) = Ok (true, reason)) in H.
  split; [congruence|].
  split; [|split; [|split; [|split; [|split; reflexivity]]]].
  - apply match_allowed_start_iff. now rewrite Es.
  - intros k Hk Ho.
    assert (Hs : solid k = true)
      by now apply reported_keywords_solid, denied_in_reported.
    apply (occurs_normalized k sql Hs) in Ho.
    apply in_app_or in Hk. destruct Hk as [Hk|Hk].
    + refine (search_none_no_occurrence _ _ _ k Hk Ho).
      apply (Hn (Keyword forbidden_keywords)). simpl. auto.
    + refine (search_none_no_occurrence _ _ _ k Hk Ho).
      apply (Hn (Keyword exec_keywords)). simpl. auto.
  - intros Hu. apply union_search_complete in Hu. apply Hu.
    apply (Hn (KeywordThenKeyword union_keywords union_targets)).
    simpl. auto.
  - intros Hin. apply (contains_char ";"%char) in Hin.
    change (py ";") with [";"%char] in E1. congruence.
Qed.

(** X1: [ensure_safe_select] accepts exactly the texts whose first word is
    WITH, SELECT or EXPLAIN, that hold no denied keyword as a word in
    either case, no UNION followed on its line by SELECT, INSERT, UPDATE
    or DELETE, no semicolon, no [--] and no [/*]. *)
Theorem ensure_safe_select_accepts_iff (sql : text) :
  ensure_safe_select sql = Ok (true, None) <->
  In (leading_keyword sql) allowed_start /\
  (forall k, In k denied_keywords -> ~ occurs_as_word k (upper sql)) /\
  ~ union_then_target (upper (strip sql)) /\
  ~ In ";"%char sql /\
  contains (py "--") sql = false /\ contains (py "/*") sql = false.
Proof.
  split.
  - intros H. now apply accepted_inv in H.
  - intros (Hl & Hd & Hu & Hs & H1 & H2).
    rewrite passes_patterns_rest; auto.
    + destruct (contains (py ";") sql) eqn:E.
      * exfalso. apply Hs. now apply (contains_char ";"%char).
      * now rewrite H1, H2.
    + apply check_patterns_none_intro. now apply pattern_search_none.
Qed.

(** X2: a UNION or UNION ALL that SELECT, INSERT, UPDATE or DELETE follows
    on the same line is rejected with a forbidden-keyword reason, and the
    keyword named is UNION or UNION ALL when no denied keyword occurs. *)
Theorem union_query_rejected (sql : text) :
  union_then_target (upper (strip sql)) ->
  exists k,
    In k reported_keywords /\
    ensure_safe_select sql = Ok (false, Some (msg_forbidden ++ k)) /\
    ((forall k', In k' denied_keywords -> ~ occurs_as_word k' (upper sql)) ->
     In k union_keywords).
Proof.
  intros Hu. apply union_search_complete in Hu.
  destruct (check_patterns dangerous_patterns (upper (strip sql)))
    as [r|] eqn:E.
  - destruct (forbidden_reason_names_word _ _ E) as (k & Hk & Ho & ->).
    exists k. split; [exact Hk|]. split.
    + unfold ensure_safe_select. now rewrite E.
    + intros Hd. apply in_app_or in Hk. destruct Hk as [Hk|Hk]; [|exact Hk].
      now destruct (Hd k Hk).
  - exfalso. apply Hu.
    apply (check_patterns_none _ _ E
             (KeywordThenKeyword union_keywords union_targets)).
    simpl. auto.
Qed.

Lemma union_query_rejected_witness :
  union_then_target
    (upper (strip (py "SELECT a FROM t UNION SELECT a FROM u"))) /\
  exists k,
    In k reported_keywords /\
    ensure_safe_select (py "SELECT a FROM t UNION SELECT a FROM u")
    = Ok (false, Some (msg_forbidden ++ k)) /\
    ((forall k', In k' denied_keywords ->
        ~ occurs_as_word k'
            (upper (py "SELECT a FROM t UNION SELECT a FROM u"))) ->
     In k union_keywords).
Proof.
  assert (H : union_then_target
    (upper (strip (py "SELECT a FROM t UNION SELECT a FROM u")))).
  { exists (py "UNION"), (py "SELECT"), (py "SELECT A FROM T "),
      (py " SELECT A FROM U").
    split; [simpl; auto|]. split; [simpl; auto|].
    split; [reflexivity|]. split; [reflexivity|]. split; [reflexivity|].
    exists (py " "), (py " A FROM U").
    split; [reflexivity|]. split; [|split; reflexivity].
    intros [E|[]]. discriminate E. }
  split; [exact H|].
  exact (union_query_rejected
           (py "SELECT a FROM t UNION SELECT a FROM u") H).
Defined.

(** The rule reads one line: a UNION at the end of a line passes. *)
Example union_across_lines_accepted :
  ensure_safe_select
    (py "SELECT a FROM t UNION" ++ newline :: py "SELECT a FROM u")
  = Ok (true, None).
Proof. vm_compute. reflexivity. Qed.

(** ** Letter case *)

Lemma upper_char_idem (c : ascii) : upper_char (upper_char c) = upper_char c.
Proof. destruct c as [[] [] [] [] [] [] [] []]; reflexivity. Qed.

Lemma upper_idem (s : text) : upper (upper s) = upper s.
Proof.
  unfold upper. rewrite map_map. apply map_ext. exact upper_char_idem.
Qed.

Lemma caseless_symbols :
  Forall caseless [";"; "-"; "/"; "*"]%char.
Proof.
  repeat constructor; intros c;
    destruct c as [[] [] [] [] [] [] [] []]; reflexivity.
Qed.

Lemma starts_with_upper (p : text) :
  Forall caseless p ->
  forall s, starts_with p (upper s) = starts_with p s.
Proof.
  induction 1 as [|x p Hx _ IH]; intros s; [reflexivity|].
  destruct s as [|c s]; [reflexivity|].
  change (upper (c :: s)) with (upper_char c :: upper s).
  now rewrite !starts_with_cons, Hx, IH.
Qed.

Lemma contains_upper (p : text) :
  Forall caseless p ->
  forall s, contains p (upper s) = contains p s.
Proof.
  intros Hp s. induction s as [|c s IH].
  - reflexivity.
  - change (upper (c :: s)) with (upper_char c :: upper s).
    rewrite !contains_cons, IH. f_equal.
    exact (starts_with_upper p Hp (c :: s)).
Qed.

Lemma ensure_safe_select_upper (sql : text) :
  ensure_safe_select (upper sql) = ensure_safe_select sql.
Proof.
  pose proof caseless_symbols as Hc.
  assert (H1 : Forall caseless (py ";")).
  { constructor; [|constructor]. now inversion Hc. }
  assert (H2 : Forall caseless (py "--")).
  { inversion Hc as [|? ? _ Hc']. inversion Hc' as [|? ? Hd _].
    repeat constructor; exact Hd. }
  assert (H3 : Forall caseless (py "/*")).
  { inversion Hc as [|? ? _ Hc']. inversion Hc' as [|? ? _ Hc''].
    exact Hc''. }
  unfold ensure_safe_select.
  rewrite (strip_upper (upper sql)), upper_idem, <- strip_upper.
  now rewrite (contains_upper _ H1), (contains_upper _ H2),
    (contains_upper _ H3).
Qed.

(** X3: the verdict and its reason do not depend on letter case: two
    texts with the same upper-case form get the same result. *)
Theorem ensure_safe_select_ignores_case (s t : text) :
  upper s = upper t -> ensure_safe_select s = ensure_safe_select t.
Proof.
  intros H.
  now rewrite <- (ensure_safe_select_upper s), H, ensure_safe_select_upper.
Qed.

Lemma ensure_safe_select_ignores_case_witness :
  upper (py "select * from topics") = upper (py "SeLeCt * FrOm Topics") /\
  ensure_safe_select (py "select * from topics")
  = ensure_safe_select (py "SeLeCt * FrOm Topics").
Proof.
  split; [reflexivity|].
  apply (ensure_safe_select_ignores_case
           (py "select * from topics") (py "SeLeCt * FrOm Topics")).
  reflexivity.
Defined.

(** ** The normal form of [sanitize_sql] *)

Lemma single_spaced_In (s : text) (c : ascii) :
  single_spaced s = true -> In c s -> isspace c = true -> c = " "%char.
Proof.
  induction s as [|d s IH]; intros H Hin Hc; [destruct Hin|].
  destruct Hin as [Hd|Hin].
  - subst d. simpl in H. rewrite Hc in H.
    apply andb_true_iff in H. destruct H as [H _].
    apply andb_true_iff in H. destruct H as [H _].
    apply eqc_eq in H. exact H.
  - apply IH; auto. exact (single_spaced_tail _ _ H).
Qed.

(** X4: whatever the input, the text [sanitize_sql] returns has no white
    space at either end, and its only white space is single blanks: no
    newline, no tab, no two blanks in a row. *)
Theorem sanitize_normal_form (s : text) :
  trimmed (sanitize_sql s) /\
  single_spaced (sanitize_sql s) = true /\
  (forall c, In c (sanitize_sql s) -> isspace c = true -> c = " "%char).
Proof.
  split; [|split].
  - unfold trimmed, sanitize_sql. apply strip_idem.
  - apply sanitized_single_spaced.
  - intros c. apply single_spaced_In, sanitized_single_spaced.
Qed.

(** X5: a text without white space at either end, whose only white
    space is single blanks and that holds neither [--] nor [/*], is
    returned by [sanitize_sql] as it is. *)
Theorem sanitize_fixed_point (t : text) :
  contains (py "--") t = false -> contains (py "/*") t = false ->
  single_spaced t = true -> trimmed t ->
  sanitize_sql t = t.
Proof.
  intros H1 H2 H3 H4. unfold sanitize_sql.
  now rewrite (line_pass_id _ H1), (block_pass_id _ H2), (spaces_pass_id _ H3).
Qed.

Lemma sanitize_fixed_point_witness :
  contains (py "--") (py "SELECT * FROM t WHERE id = 1") = false /\
  contains (py "/*") (py "SELECT * FROM t WHERE id = 1") = false /\
  single_spaced (py "SELECT * FROM t WHERE id = 1") = true /\
  trimmed (py "SELECT * FROM t WHERE id = 1") /\
  sanitize_sql (py "SELECT * FROM t WHERE id = 1")
  = py "SELECT * FROM t WHERE id = 1".
Proof.
  split; [reflexivity|]. split; [reflexivity|]. split; [reflexivity|].
  split; [reflexivity|].
  apply (sanitize_fixed_point (py "SELECT * FROM t WHERE id = 1"));
    reflexivity.
Defined.

(** ** [extract_sql_from_code_block] *)

Lemma search_from_eq (m : option ascii -> text -> option text)
  (prev : option ascii) (s : text) :
  search_from m prev s =
  match m prev s with
  | Some g => Some g
  | None =>
      match s with
      | [] => None
      | c :: s' => search_from m (Some c) s'
      end
  end.
Proof. destruct s; reflexivity. Qed.

Lemma no_fence_no_block (s : text) : forall prev,
  contains fence s = false ->
  search_from (fun _ => code_block_at) prev s = None.
Proof.
  induction s as [|c s IH]; intros prev H; rewrite search_from_eq.
  - reflexivity.
  - apply contains_cons_false in H. destruct H as [H1 H2].
    unfold code_block_at. rewrite H1. now apply IH.
Qed.

(** X6: a text without a fence of three backquotes is returned stripped,
    and [None] is returned when nothing is left of it. *)
Theorem extract_without_fence (txt : text) :
  contains fence txt = false ->
  (strip txt = [] -> extract_sql_from_code_block txt = None) /\
  (strip txt <> [] -> extract_sql_from_code_block txt = Some (strip txt)).
Proof.
  intros H. unfold extract_sql_from_code_block.
  rewrite (no_fence_no_block _ None H).
  destruct (strip txt); split; intros E; try reflexivity;
    try discriminate E. now destruct E.
Qed.

Lemma extract_without_fence_witness :
  contains fence (py "  SELECT 1  ") = false /\
  (strip (py "  SELECT 1  ") = [] ->
   extract_sql_from_code_block (py "  SELECT 1  ") = None) /\
  (strip (py "  SELECT 1  ") <> [] ->
   extract_sql_from_code_block (py "  SELECT 1  ")
   = Some (strip (py "  SELECT 1  "))).
Proof.
  split; [reflexivity|].
  apply (extract_without_fence (py "  SELECT 1  ")). reflexivity.
Defined.

Lemma until_fence_eq (s : text) :
  until_fence s =
  if starts_with (newline :: fence) s then Some []
  else match s with
       | [] => None
       | c :: s' => option_map (cons c) (until_fence s')
       end.
Proof. destruct s; reflexivity. Qed.

Lemma block_body_cons (c : ascii) (s : text) :
  block_body (c :: s) =
  if isspace c then
    match block_body s with
    | Some g => Some g
    | None => if eqc c newline then until_fence s else None
    end
  else None.
Proof. reflexivity. Qed.

(** A closing fence that starts inside [x] lies inside [x]: its newline
    is followed by backquotes, not by the newline of the next fence. *)
Lemma fence_inside (x rest : text) :
  x <> [] ->
  starts_with (newline :: fence) (x ++ newline :: fence ++ rest) = true ->
  starts_with (newline :: fence) x = true.
Proof.
  assert (E : eqc "`" newline = false) by reflexivity.
  intros Hx H. unfold fence in *.
  destruct x as [|a [|b [|c [|d x]]]]; [congruence| | | |];
    cbn [app] in H; rewrite ?starts_with_cons in *;
    rewrite ?E, ?andb_false_r in H; try discriminate H.
  destruct (eqc newline a), (eqc "`" b), (eqc "`" c), (eqc "`" d);
    try discriminate H; reflexivity.
Qed.

Lemma until_fence_found (q post : text) :
  contains (newline :: fence) q = false ->
  until_fence (q ++ newline :: fence ++ post) = Some q.
Proof.
  induction q as [|c q IH]; intros H; rewrite until_fence_eq.
  - change ([] ++ newline :: fence ++ post)
      with ((newline :: fence) ++ post).
    now rewrite starts_with_app.
  - apply contains_cons_false in H. destruct H as [H1 H2].
    destruct (starts_with (newline :: fence)
                ((c :: q) ++ newline :: fence ++ post)) eqn:E.
    + apply fence_inside in E; congruence.
    + change ((c :: q) ++ newline :: fence ++ post)
        with (c :: q ++ newline :: fence ++ post).
      cbv iota. now rewrite IH.
Qed.

Lemma contains_after_absent (h : ascii) (p w s : text) :
  ~ In h w -> contains (h :: p) (w ++ s) = contains (h :: p) s.
Proof.
  induction w as [|c w IH]; intros H; [reflexivity|].
  change ((c :: w) ++ s) with (c :: w ++ s).
  rewrite contains_cons, starts_with_absent, IH; simpl in H; auto.
Qed.

Lemma contains_suffix (p a b : text) :
  contains p (a ++ b) = false -> contains p b = false.
Proof.
  induction a as [|c a IH]; intros H; [exact H|].
  apply IH. change ((c :: a) ++ b) with (c :: a ++ b) in H.
  now apply contains_cons_false in H.
Qed.

Lemma lstrip_decompose (s : text) :
  exists w, spaces w /\ s = w ++ lstrip s.
Proof.
  induction s as [|c s (w & Hw & IH)].
  - exists []. split; [constructor|reflexivity].
  - simpl. destruct (isspace c) eqn:E.
    + exists (c :: w). split; [now constructor|]. simpl. now rewrite <- IH.
    + exists []. split; [constructor|reflexivity].
Qed.

Lemma lstrip_app_spaces (w s : text) :
  spaces w -> lstrip (w ++ s) = lstrip s.
Proof.
  induction 1 as [|c w Hc _ IH]; [reflexivity|]. simpl. now rewrite Hc.
Qed.

Lemma strip_app_spaces (w s : text) : spaces w -> strip (w ++ s) = strip s.
Proof. intros H. unfold strip. now rewrite lstrip_app_spaces. Qed.

(** The header of the block on a run [w] of white space before the text
    [x] of the query: the match goes through the last newline of [w]. *)
Lemma block_body_run (x post : text) :
  x <> [] -> starts_with_space x = false ->
  contains (newline :: fence) x = false ->
  forall w, spaces w ->
    (In newline w ->
     exists w', spaces w' /\
       block_body (w ++ x ++ newline :: fence ++ post) = Some (w' ++ x)) /\
    (~ In newline w ->
     block_body (w ++ x ++ newline :: fence ++ post) = None).
Proof.
  intros Hx Hs Hc. induction 1 as [|c w Hcs Hw [IH1 IH2]].
  - split; [intros []|]. intros _. destruct x as [|a x]; [congruence|].
    simpl in Hs. change ([] ++ (a :: x) ++ newline :: fence ++ post)
      with (a :: x ++ newline :: fence ++ post).
    now rewrite block_body_cons, Hs.
  - change ((c :: w) ++ x ++ newline :: fence ++ post)
      with (c :: w ++ x ++ newline :: fence ++ post).
    rewrite block_body_cons, Hcs.
    destruct (in_dec ascii_dec newline w) as [Hin|Hin].
    + destruct (IH1 Hin) as (w' & Hw' & ->).
      split; [|intros H; exfalso; apply H; now right].
      intros _. now exists w'.
    + rewrite (IH2 Hin). destruct (eqc c newline) eqn:E.
      * split; [|intros H; exfalso; apply H; left;
                  symmetry; now apply eqc_eq].
        intros _. exists w. split; [exact Hw|].
        rewrite app_assoc. apply until_fence_found.
        now rewrite contains_after_absent.
      * split; [|reflexivity].
        intros [H|H]; [|contradiction].
        subst c. now rewrite eqc_refl in E.
Qed.

Lemma space_not_letter (c : ascii) (p : text) (s : text) :
  isspace c = true -> starts_with ("S"%char :: p) (upper (c :: s)) = false.
Proof.
  intros H. change (upper (c :: s)) with (upper_char c :: upper s).
  apply starts_with_absent. intros E.
  rewrite <- isspace_upper_char, E in H. discriminate H.
Qed.

Lemma code_block_at_fence (tag ws r : text) :
  tag = [] \/ upper tag = py "SQL" -> spaces ws ->
  code_block_at (fence ++ tag ++ ws ++ newline :: r)
  = block_body (ws ++ newline :: r).
Proof.
  intros Ht Hw. unfold code_block_at. rewrite starts_with_app.
  change (skipn 3 (fence ++ tag ++ ws ++ newline :: r))
    with (tag ++ ws ++ newline :: r).
  destruct Ht as [->|Ht].
  - change ([] ++ ws ++ newline :: r) with (ws ++ newline :: r).
    change (py "SQL") with ("S"%char :: py "QL").
    destruct Hw as [|c ws Hc _].
    + change ([] ++ newline :: r) with (newline :: r).
      now rewrite (space_not_letter newline).
    + change ((c :: ws) ++ newline :: r) with (c :: ws ++ newline :: r).
      now rewrite (space_not_letter c).
  - rewrite upper_app, Ht, starts_with_app.
    assert (Hl : length tag = 3) by exact (upper_length tag (py "SQL") Ht).
    rewrite <- Hl. now rewrite skipn_length_app.
Qed.

Lemma search_block_after (pre s g : text) :
  ~ In "`"%char pre -> code_block_at s = Some g ->
  forall prev,
    search_from (fun _ => code_block_at) prev (pre ++ s) = Some g.
Proof.
  intros Hp Hs. induction pre as [|c pre IH]; intros prev;
    rewrite search_from_eq.
  - change ([] ++ s) with s. now rewrite Hs.
  - change ((c :: pre) ++ s) with (c :: pre ++ s).
    assert (E : code_block_at (c :: pre ++ s) = None).
    { unfold code_block_at, fence. rewrite starts_with_absent; [reflexivity|].
      intros E. apply Hp. now left. }
    rewrite E. apply IH. intros H. apply Hp. now right.
Qed.

(** X7: from a text with a fenced block the query inside the block is
    returned, stripped: the fence may carry the word [sql] in either case
    and trailing blanks, the text before it holds no backquote, and the
    query is not blank and holds no newline followed by a fence. *)
Theorem extract_fenced_block (pre tag ws q post : text) :
  ~ In "`"%char pre ->
  tag = [] \/ upper tag = py "SQL" ->
  spaces ws ->
  strip q <> [] ->
  contains (newline :: fence) q = false ->
  extract_sql_from_code_block
    (pre ++ fence ++ tag ++ ws ++ newline :: q ++ newline :: fence ++ post)
  = Some (strip q).
Proof.
  intros Hp Ht Hw Hq Hc.
  destruct (lstrip_decompose q) as (w1 & Hw1 & Eq).
  assert (Hx : lstrip q <> []).
  { intros E. apply Hq. unfold strip. now rewrite E. }
  assert (Hrun : spaces (ws ++ newline :: w1)).
  { apply Forall_app. split; [exact Hw|]. now constructor. }
  assert (Hc' : contains (newline :: fence) (lstrip q) = false).
  { rewrite Eq in Hc. exact (contains_suffix _ _ _ Hc). }
  destruct (block_body_run (lstrip q) post Hx (starts_with_space_lstrip q)
              Hc' _ Hrun) as [Hb _].
  destruct Hb as (w' & Hw' & Hb); [apply in_or_app; right; now left|].
  unfold extract_sql_from_code_block.
  rewrite (search_block_after pre _ (w' ++ lstrip q) Hp).
  - rewrite strip_app_spaces by exact Hw'.
    rewrite Eq at 2. now rewrite strip_app_spaces.
  - rewrite (code_block_at_fence _ _ _ Ht Hw).
    etransitivity; [|exact Hb]. f_equal.
    rewrite <- app_assoc. f_equal.
    change ((newline :: w1) ++ lstrip q ++ newline :: fence ++ post)
      with (newline :: w1 ++ lstrip q ++ newline :: fence ++ post).
    f_equal. now rewrite app_assoc, <- Eq.
Qed.

Lemma extract_fenced_block_witness :
  ~ In "`"%char (py "Query: ") /\
  (py "sql" = [] \/ upper (py "sql") = py "SQL") /\
  spaces (py " ") /\
  strip (py "SELECT 1") <> [] /\
  contains (newline :: fence) (py "SELECT 1") = false /\
  extract_sql_from_code_block
    (py "Query: " ++ fence ++ py "sql" ++ py " "
       ++ newline :: py "SELECT 1" ++ newline :: fence ++ py " done")
  = Some (strip (py "SELECT 1")).
Proof.
  assert (H1 : ~ In "`"%char (py "Query: ")).
  { simpl. intuition discriminate. }
  assert (H2 : py "sql" = [] \/ upper (py "sql") = py "SQL")
    by (right; reflexivity).
  assert (H3 : spaces (py " ")) by (repeat constructor).
  assert (H4 : strip (py "SELECT 1") <> []) by discriminate.
  assert (H5 : contains (newline :: fence) (py "SELECT 1") = false)
    by reflexivity.
  repeat (split; [assumption|]).
  exact (extract_fenced_block (py "Query: ") (py "sql") (py " ")
           (py "SELECT 1") (py " done") H1 H2 H3 H4 H5).
Defined.

(** A block that holds white space only gives the empty string, which
    the caller in [llm_sql.py] treats like [None]. *)
Example extract_empty_block :
  extract_sql_from_code_block (fence ++ newline :: newline :: fence)
  = Some [].
Proof. vm_compute. reflexivity. Qed.

(** ** Pagination metadata *)

Lemma ceil_div_bounds (t n : Z) :
  (1 <= n -> ((t + n - 1) / n - 1) * n < t <= (t + n - 1) / n * n)%Z.
Proof.
  intros Hn.
  pose proof (Z.div_mod (t + n - 1) n ltac:(lia)) as Hd.
  pose proof (Z.mod_pos_bound (t + n - 1) n ltac:(lia)) as Hm.
  nia.
Qed.

(** X8: [get_pagination_info] never divides by zero, whatever it is given;
    the page and the page size it reports are the clamped ones, the offset
    is not negative, [total_pages] is the least number of pages of that
    size that hold [total_rows] rows, [has_next] says that the page is
    before the last one and [has_prev] that it is after the first. *)
Theorem get_pagination_info_totals (page page_size rows : Z) :
  exists info totals,
    get_pagination_info page page_size (Some rows) = inl info /\
    info_totals info = Some totals /\
    (info_page info, info_page_size info)
    = validate_pagination_params page page_size /\
    (info_offset info = (info_page info - 1) * info_page_size info)%Z /\
    (0 <= info_offset info)%Z /\
    total_rows totals = rows /\
    ((total_pages totals - 1) * info_page_size info < rows
     <= total_pages totals * info_page_size info)%Z /\
    (has_next totals = true <-> info_page info < total_pages totals)%Z /\
    (has_prev totals = true <-> 1 < info_page info)%Z.
Proof.
  unfold get_pagination_info, validate_pagination_params, floordiv.
  set (p := Z.max 1 page). set (n := Z.max 1 (Z.min 1000 page_size)).
  assert (Hp : (1 <= p)%Z) by (subst p; lia).
  assert (Hn : (1 <= n)%Z) by (subst n; lia).
  destruct (n =? 0)%Z eqn:E; [lia|].
  pose proof (ceil_div_bounds rows n Hn) as Hc.
  eexists. eexists. split; [reflexivity|].
  split; [reflexivity|].
  cbn [info_totals info_page info_page_size info_offset total_rows
       total_pages has_next has_prev].
  split; [reflexivity|]. split; [reflexivity|].
  split; [nia|]. split; [reflexivity|]. split; [exact Hc|].
  split.
  - rewrite Z.ltb_lt. split; intros H; nia.
  - rewrite Z.gtb_ltb, Z.ltb_lt. reflexivity.
Qed.

(** X9: for a page size of at least 1 and a row count that is not
    negative, [_calculate_pagination_metadata] returns; [total_pages] is
    the least number of pages that hold the rows, [has_next] says that
    rows remain after the page, [next_page] and [previous_page] are given
    exactly when there is one, and for a page from 1 to the last the
    indices are in range: from [start_index] to [end_index] there are at
    least one and at most [page_size] rows, none past [total_count]. *)
Theorem calculate_pagination_metadata_bounds
  (page page_size total_count result_count : Z) :
  (1 <= page_size)%Z -> (0 <= total_count)%Z ->
  exists m,
    Kg._calculate_pagination_metadata page page_size total_count result_count
    = inl m /\
    ((Kg.meta_total_pages m - 1) * page_size < total_count
     <= Kg.meta_total_pages m * page_size \/
     total_count = 0 /\ Kg.meta_total_pages m = 0)%Z /\
    (Kg.meta_has_next m = true <-> page * page_size < total_count)%Z /\
    (Kg.meta_next_page m
     = if Kg.meta_has_next m then Some (page + 1)%Z else None) /\
    (Kg.meta_previous_page m
     = if (1 <? page)%Z then Some (page - 1)%Z else None) /\
    ((1 <= page <= Kg.meta_total_pages m)%Z ->
     (1 <= Kg.meta_start_index m <= Kg.meta_end_index m)%Z /\
     (Kg.meta_end_index m <= total_count)%Z /\
     (Kg.meta_end_index m - Kg.meta_start_index m < page_size)%Z /\
     (Kg.meta_start_index m = (page - 1) * page_size + 1)%Z).
Proof.
  intros Hn Ht. unfold Kg._calculate_pagination_metadata, floordiv.
  pose proof (ceil_div_bounds total_count page_size Hn) as Hc.
  destruct (total_count >? 0)%Z eqn:E.
  - destruct (page_size =? 0)%Z eqn:E0; [lia|].
    eexists. split; [reflexivity|].
    cbn [Kg.meta_total_pages Kg.meta_has_next Kg.meta_next_page
         Kg.meta_previous_page Kg.meta_start_index Kg.meta_end_index].
    split; [left; exact Hc|]. split.
    { rewrite Z.ltb_lt. split; intros H; nia. }
    split; [reflexivity|]. split.
    { rewrite Z.gtb_ltb. reflexivity. }
    intros Hpg. nia.
  - eexists. split; [reflexivity|].
    cbn [Kg.meta_total_pages Kg.meta_has_next Kg.meta_next_page
         Kg.meta_previous_page Kg.meta_start_index Kg.meta_end_index].
    split; [right; lia|]. split.
    { rewrite Z.ltb_lt. split; intros H; nia. }
    split; [reflexivity|]. split.
    { rewrite Z.gtb_ltb. reflexivity. }
    intros Hpg. lia.
Qed.

Lemma calculate_pagination_metadata_bounds_witness :
  (1 <= 10)%Z /\ (0 <= 35)%Z /\
  exists m,
    Kg._calculate_pagination_metadata 2 10 35 10 = inl m /\
    ((Kg.meta_total_pages m - 1) * 10 < 35
     <= Kg.meta_total_pages m * 10 \/
     35 = 0 /\ Kg.meta_total_pages m = 0)%Z /\
    (Kg.meta_has_next m = true <-> 2 * 10 < 35)%Z /\
    (Kg.meta_next_page m
     = if Kg.meta_has_next m then Some (2 + 1)%Z else None) /\
    (Kg.meta_previous_page m
     = if (1 <? 2)%Z then Some (2 - 1)%Z else None) /\
    ((1 <= 2 <= Kg.meta_total_pages m)%Z ->
     (1 <= Kg.meta_start_index m <= Kg.meta_end_index m)%Z /\
     (Kg.meta_end_index m <= 35)%Z /\
     (Kg.meta_end_index m - Kg.meta_start_index m < 10)%Z /\
     (Kg.meta_start_index m = (2 - 1) * 10 + 1)%Z).
Proof.
  split; [lia|]. split; [lia|].
  apply (calculate_pagination_metadata_bounds 2 10 35 10); lia.
Defined.

(** X10: [_calculate_pagination_metadata] raises ZeroDivisionError exactly
    when the page size is 0 and there are rows; [execute_paginated_query]
    hands it the page size of the request, which [add_pagination] has
    replaced by 50 in the query only. *)
Theorem calculate_pagination_metadata_raises
  (page page_size total_count result_count : Z) :
  (Kg._calculate_pagination_metadata page page_size total_count result_count
   = inr ZeroDivisionError
   <-> (page_size = 0 /\ 0 < total_count)%Z)
  /\
  (forall sql, (page_size < 1)%Z ->
     Kg.add_pagination sql page page_size = Kg.add_pagination sql page 50).
Proof.
  split.
  - unfold Kg._calculate_pagination_metadata, floordiv.
    destruct (total_count >? 0)%Z eqn:E; destruct (page_size =? 0)%Z eqn:E0;
      split; intros H; try discriminate H; try reflexivity; lia.
  - intros sql H. unfold Kg.add_pagination.
    assert (E : (page_size <? 1)%Z = true) by lia. rewrite E.
    reflexivity.
Qed.

(** ** What the [/query] handler executes *)

Lemma uint_digits (d : Decimal.uint) :
  Forall (fun c => isdigit c = true)
         (py (DecimalString.NilEmpty.string_of_uint d)).
Proof. induction d; simpl; constructor; auto. Qed.

Lemma format_int_digits (n : Z) : (0 <= n)%Z -> digits (format_int n).
Proof.
  intros Hn. unfold format_int, DecimalString.NilZero.string_of_int.
  destruct n as [|p|p]; [| |lia].
  - split; [discriminate|]. repeat constructor.
  - unfold Z.to_int, DecimalString.NilZero.string_of_uint.
    pose proof (uint_digits (Pos.to_uint p)) as H.
    destruct (Pos.to_uint p); try (split; [discriminate|exact H]).
    split; [discriminate|]. repeat constructor.
Qed.

Lemma not_in_by_test (c : ascii) (s : text) :
  forallb (fun d => negb (eqc c d)) s = true -> ~ In c s.
Proof.
  intros H Hin. rewrite forallb_forall in H. specialize (H c Hin).
  now rewrite eqc_refl in H.
Qed.

Lemma starts_with_app_foreign (p : text) :
  p <> [] ->
  forall a b, (forall c, In c p -> ~ In c b) ->
  starts_with p (a ++ b) = starts_with p a.
Proof.
  induction p as [|x p IH]; intros Hp a b H; [congruence|].
  destruct a as [|c a].
  - destruct b as [|d b]; [reflexivity|].
    change ([] ++ d :: b) with (d :: b). rewrite starts_with_absent.
    + reflexivity.
    + intros E. apply (H x); [now left|]. left. now symmetry.
  - change ((c :: a) ++ b) with (c :: a ++ b). rewrite !starts_with_cons.
    destruct p as [|y p]; [now destruct a|].
    rewrite IH; [reflexivity|discriminate|].
    intros e He. apply H. now right.
Qed.

Lemma contains_app_foreign (p a b : text) :
  p <> [] -> (forall c, In c p -> ~ In c b) ->
  contains p (a ++ b) = contains p a.
Proof.
  intros Hp H. induction a as [|c a IH].
  - destruct p as [|x p]; [congruence|].
    change ([] ++ b) with b.
    assert (Hb : contains (x :: p) b = false).
    { clear Hp. induction b as [|d b IHb]; [reflexivity|].
      rewrite contains_cons, starts_with_absent.
      - apply IHb. intros e He Hin. apply (H e He). now right.
      - intros E. apply (H x); [now left|]. left. now symmetry. }
    rewrite Hb. reflexivity.
  - change ((c :: a) ++ b) with (c :: a ++ b). rewrite !contains_cons, IH.
    f_equal. exact (starts_with_app_foreign p Hp (c :: a) b H).
Qed.

Lemma contains_prefix_false (p a b : text) :
  contains p (a ++ b) = false -> contains p a = false.
Proof.
  intros H. destruct (contains p a) eqn:E; [|reflexivity].
  apply contains_iff in E. destruct E as (x & y & ->).
  rewrite <- H. symmetry. rewrite <- !app_assoc.
  apply contains_app.
Qed.

Lemma no_semicolon_no_comment_prefix (a b : text) :
  no_semicolon_no_comment (a ++ b) -> no_semicolon_no_comment a.
Proof.
  intros (H1 & H2 & H3). split; [|split].
  - intros H. apply H1, in_or_app. now left.
  - exact (contains_prefix_false _ _ _ H2).
  - exact (contains_prefix_false _ _ _ H3).
Qed.

Lemma cut_from_prefix (pos : option nat) (x : text) :
  ~ In ";"%char x -> exists r, x = cut_from pos x ++ r.
Proof.
  intros H. destruct pos as [p|]; [|exists []; now rewrite app_nil_r].
  unfold cut_from, str_find_from. change (py ";") with [";"%char].
  rewrite str_find_absent.
  - simpl option_map. cbv iota. rewrite skipn_all, app_nil_r.
    destruct (rstrip_decompose (firstn p x)) as (r & Hr & _).
    exists (r ++ skipn p x).
    rewrite app_assoc, <- Hr. symmetry. apply firstn_skipn.
  - intros Hin. apply H. rewrite <- (firstn_skipn p x).
    apply in_or_app. now right.
Qed.

(** The characters that end a statement or open a comment. *)
Lemma symbol_cases (P : ascii -> Prop) :
  P ";"%char -> P "-"%char -> P "/"%char -> P "*"%char ->
  forall c, In c [";"; "-"; "/"; "*"]%char -> P c.
Proof. intros H1 H2 H3 H4 c [<-|[<-|[<-|[<-|[]]]]]; assumption. Qed.

Lemma digits_foreign (s : text) (c : ascii) :
  digits s -> In c [";"; "-"; "/"; "*"]%char -> ~ In c s.
Proof.
  intros [_ Hs] Hc Hin. rewrite Forall_forall in Hs.
  specialize (Hs c Hin). revert c Hc Hin Hs.
  apply (symbol_cases (fun c => In c s -> isdigit c = true -> False));
    intros _ H; discriminate H.
Qed.

Lemma limit_clause_foreign (page page_size : Z) (c : ascii) :
  (0 <= page_size)%Z -> (0 <= (page - 1) * page_size)%Z ->
  In c [";"; "-"; "/"; "*"]%char -> ~ In c (limit_clause page page_size).
Proof.
  intros Hn Hm Hc Hin. unfold limit_clause in Hin.
  apply in_app_or in Hin. destruct Hin as [Hin|Hin].
  { revert c Hc Hin.
    apply (symbol_cases (fun c => ~ In c (py " LIMIT ")));
      apply not_in_by_test; reflexivity. }
  apply in_app_or in Hin. destruct Hin as [Hin|Hin].
  { exact (digits_foreign _ c (format_int_digits _ Hn) Hc Hin). }
  apply in_app_or in Hin. destruct Hin as [Hin|Hin].
  { revert c Hc Hin.
    apply (symbol_cases (fun c => ~ In c (py " OFFSET ")));
      apply not_in_by_test; reflexivity. }
  exact (digits_foreign _ c (format_int_digits _ Hm) Hc Hin).
Qed.

Lemma no_semicolon_no_comment_app (a b : text) :
  no_semicolon_no_comment a ->
  (forall c, In c [";"; "-"; "/"; "*"]%char -> ~ In c b) ->
  no_semicolon_no_comment (a ++ b).
Proof.
  intros (H1 & H2 & H3) Hb. split; [|split].
  - intros H. apply in_app_or in H. destruct H as [H|H]; [auto|].
    apply (Hb ";"%char); simpl; auto.
  - rewrite contains_app_foreign; [exact H2|discriminate|].
    intros c [<-|[<-|[]]]; apply Hb; simpl; auto.
  - rewrite contains_app_foreign; [exact H3|discriminate|].
    intros c [<-|[<-|[]]]; apply Hb; simpl; auto.
Qed.

Lemma no_semicolon_no_comment_after (a s : text) :
  ~ In ";"%char a -> ~ In "-"%char a -> ~ In "/"%char a ->
  no_semicolon_no_comment s -> no_semicolon_no_comment (a ++ s).
Proof.
  intros Ha1 Ha2 Ha3 (H1 & H2 & H3). split; [|split].
  - intros H. apply in_app_or in H. tauto.
  - change (py "--") with ("-"%char :: py "-").
    now rewrite contains_after_absent.
  - change (py "/*") with ("/"%char :: py "*").
    now rewrite contains_after_absent.
Qed.

Lemma cut_from_plain (pos : option nat) (x : text) :
  no_semicolon_no_comment x -> no_semicolon_no_comment (cut_from pos x).
Proof.
  intros H. destruct (cut_from_prefix pos x) as (r & Hr); [apply H|].
  rewrite Hr in H. exact (no_semicolon_no_comment_prefix _ _ H).
Qed.

Lemma rstrip_plain (x : text) :
  no_semicolon_no_comment x -> no_semicolon_no_comment (rstrip x).
Proof.
  intros H. destruct (rstrip_decompose x) as (r & Hr & _).
  rewrite Hr in H. exact (no_semicolon_no_comment_prefix _ _ H).
Qed.

Lemma add_pagination_plain (sql : text) (page page_size : Z) :
  no_semicolon_no_comment sql ->
  (0 <= page_size)%Z -> (0 <= (page - 1) * page_size)%Z ->
  no_semicolon_no_comment (add_pagination sql page page_size).
Proof.
  intros H Hn Hm. rewrite add_pagination_eq.
  apply no_semicolon_no_comment_app.
  - apply rstrip_plain.
    exact (cut_from_plain (str_rfind (py "LIMIT") (upper sql)) sql H).
  - intros c Hc. now apply limit_clause_foreign.
Qed.

Lemma create_count_query_plain (sql : text) :
  no_semicolon_no_comment sql ->
  no_semicolon_no_comment (create_count_query sql).
Proof.
  intros H.
  change (create_count_query sql)
    with (py "SELECT COUNT(*) as total FROM ("
          ++ cut_from (str_rfind (py "LIMIT") (upper sql))
               (cut_from (str_rfind (py "ORDER BY") (upper sql)) sql)
          ++ py ") as count_query").
  apply no_semicolon_no_comment_after;
    try (apply not_in_by_test; reflexivity).
  apply no_semicolon_no_comment_app.
  - now apply cut_from_plain, cut_from_plain.
  - apply symbol_cases; apply not_in_by_test; reflexivity.
Qed.

(** X11: whatever the request, a statement the [/query] handler passes to
    the database holds no semicolon, no [--] and no [/*]; the paginated one
    ends with a LIMIT from 1 to 1000 and an OFFSET that is not negative,
    both printed as plain digits. *)
Theorem execute_query_statements (request_sql : text)
  (request_page request_page_size : Z) (include_total : bool)
  (paginated_sql : text) (count_sql : option text) :
  execute_query request_sql request_page request_page_size include_total
  = Executes paginated_sql count_sql ->
  no_semicolon_no_comment paginated_sql /\
  (forall q, count_sql = Some q -> no_semicolon_no_comment q) /\
  exists body n m,
    (1 <= n <= 1000)%Z /\ (0 <= m)%Z /\
    digits (format_int n) /\ digits (format_int m) /\
    paginated_sql
    = body ++ py " LIMIT " ++ format_int n ++ py " OFFSET " ++ format_int m.
Proof.
  unfold execute_query, validate_pagination_params.
  set (p := Z.max 1 request_page).
  set (n := Z.max 1 (Z.min 1000 request_page_size)).
  assert (Hn : (1 <= n <= 1000)%Z) by (subst n; lia).
  assert (Hm : (0 <= (p - 1) * n)%Z) by (subst p; nia).
  destruct (ensure_safe_select (sanitize_sql request_sql))
    as [[safe error]|e] eqn:E; [|discriminate].
  destruct safe; [|discriminate]. cbn [negb].
  intros H. injection H as <- <-.
  apply accepted_inv in E. destruct E as (_ & _ & _ & _ & Hplain).
  split; [|split].
  - apply add_pagination_plain; [exact Hplain|lia|exact Hm].
  - intros q Hq. destruct include_total; [|discriminate Hq].
    injection Hq as <-. now apply create_count_query_plain.
  - exists (rstrip (without_limit (sanitize_sql request_sql))), n,
      ((p - 1) * n)%Z.
    split; [exact Hn|]. split; [exact Hm|].
    split; [apply format_int_digits; lia|].
    split; [now apply format_int_digits|]. apply add_pagination_eq.
Qed.

Lemma execute_query_statements_witness :
  execute_query (py "SELECT * FROM topics -- all") 2 5000 true
  = Executes (py "SELECT * FROM topics LIMIT 1000 OFFSET 1000")
      (Some (py "SELECT COUNT(*) as total FROM (SELECT * FROM topics) as count_query"))
  /\
  no_semicolon_no_comment (py "SELECT * FROM topics LIMIT 1000 OFFSET 1000") /\
  (forall q,
     Some (py "SELECT COUNT(*) as total FROM (SELECT * FROM topics) as count_query")
     = Some q -> no_semicolon_no_comment q) /\
  exists body n m,
    (1 <= n <= 1000)%Z /\ (0 <= m)%Z /\
    digits (format_int n) /\ digits (format_int m) /\
    py "SELECT * FROM topics LIMIT 1000 OFFSET 1000"
    = body ++ py " LIMIT " ++ format_int n ++ py " OFFSET " ++ format_int m.
Proof.
  assert (H : execute_query (py "SELECT * FROM topics -- all") 2 5000 true
    = Executes (py "SELECT * FROM topics LIMIT 1000 OFFSET 1000")
        (Some (py "SELECT COUNT(*) as total FROM (SELECT * FROM topics) as count_query")))
    by (vm_compute; reflexivity).
  split; [exact H|].
  exact (execute_query_statements _ _ _ _ _ _ H).
Defined.

(** The check is made before the LIMIT is cut, and cutting can turn the
    end of a longer word into a word of its own. *)
Example pagination_forms_keyword :
  ensure_safe_select (py "SELECT 1 AS deletelimit") = Ok (true, None) /\
  add_pagination (py "SELECT 1 AS deletelimit") 1 50
  = py "SELECT 1 AS delete LIMIT 50 OFFSET 0" /\
  ensure_safe_select (py "SELECT 1 AS delete LIMIT 50 OFFSET 0")
  = Ok (false, Some (py "SQL contains forbidden keyword: DELETE")).
Proof. repeat split; vm_compute; reflexivity. Qed.

(** ** The count query *)

Lemma cut_from_no_semicolon (p : nat) (x : text) :
  ~ In ";"%char x -> cut_from (Some p) x = rstrip (firstn p x).
Proof.
  intros H. unfold cut_from, str_find_from. change (py ";") with [";"%char].
  rewrite str_find_absent.
  - simpl option_map. cbv iota. now rewrite skipn_all, app_nil_r.
  - intros Hin. apply H. rewrite <- (firstn_skipn p x).
    apply in_or_app. now right.
Qed.

Lemma str_rfind_sound (p s : text) : forall l,
  str_rfind p s = Some l -> starts_with p (skipn l s) = true.
Proof.
  induction s as [|c s IH]; intros l H.
  - simpl in H. destruct (starts_with p []) eqn:E; [|discriminate H].
    injection H as <-. exact E.
  - change (str_rfind p (c :: s))
      with (match str_rfind p s with
            | Some i => Some (S i)
            | None => if starts_with p (c :: s) then Some 0 else None
            end) in H.
    destruct (str_rfind p s) as [i|].
    + injection H as <-. now apply IH.
    + destruct (starts_with p (c :: s)) eqn:E; [|discriminate H].
      injection H as <-. exact E.
Qed.







(** ** [sanitize_sql] of [trendsql_kg] *)

Lemma In_skipn (c : ascii) (n : nat) (s : text) :
  In c (skipn n s) -> In c s.
Proof.
  intros H. rewrite <- (firstn_skipn n s). apply in_or_app. now right.
Qed.

Lemma re_sub_In (m : text -> option nat) (repl : text) (c : ascii) :
  forall n s, length s <= n ->
  In c (re_sub m repl s) -> In c repl \/ In c s.
Proof.
  induction n as [|n IH]; intros s Hn H.
  - destruct s; [|simpl in Hn; lia]. rewrite re_sub_nil in H. destruct H.
  - destruct s as [|d s]; [rewrite re_sub_nil in H; destruct H|].
    rewrite re_sub_cons in H. simpl in Hn.
    destruct (m (d :: s)) as [k|].
    + apply in_app_or in H. destruct H as [H|H]; [now left|].
      apply IH in H.
      * destruct H as [H|H]; [now left|]. right. right.
        exact (In_skipn _ _ _ H).
      * rewrite length_skipn. lia.
    + destruct H as [H|H]; [right; now left|].
      apply IH in H; [|lia]. destruct H as [H|H]; [now left|].
      right. now right.
Qed.

Lemma first_statement_In (c : ascii) (s : text) :
  In c (Kg.first_statement s) -> In c s /\ c <> ";"%char.
Proof.
  induction s as [|d s IH]; intros H; [destruct H|]. simpl in H.
  destruct (eqc d ";") eqn:E; [destruct H|].
  destruct H as [H|H].
  - subst d. split; [now left|]. intros ->. now rewrite eqc_refl in E.
  - destruct (IH H). split; [now right|assumption].
Qed.

Lemma strip_In (c : ascii) (s : text) : In c (strip s) -> In c s.
Proof.
  intros H. unfold strip in H.
  destruct (rstrip_decompose (lstrip s)) as (r & Hr & _).
  assert (H' : In c (lstrip s)).
  { rewrite Hr. apply in_or_app. now left. }
  clear H Hr. induction s as [|d s IH]; [exact H'|]. simpl in H'.
  destruct (isspace d); [right; auto|exact H'].
Qed.

(** X13: whatever the input, the text [sanitize_sql] of [trendsql_kg]
    returns holds no semicolon. *)
Theorem kg_sanitize_no_semicolon (sql : text) :
  ~ In ";"%char (Kg.sanitize_sql sql).
Proof.
  unfold Kg.sanitize_sql. intros H.
  apply (re_sub_In _ _ _ _ _ (Nat.le_refl _)) in H.
  destruct H as [H|H].
  - destruct H as [H|[]]. discriminate H.
  - apply strip_In, first_statement_In in H. now destruct H.
Qed.

Lemma re_sub_skip (m : text -> option nat) (repl a rest : text) :
  (forall c s, In c a -> m (c :: s) = None) ->
  re_sub m repl (a ++ rest) = a ++ re_sub m repl rest.
Proof.
  induction a as [|c a IH]; intros H; [reflexivity|].
  change ((c :: a) ++ rest) with (c :: a ++ rest).
  rewrite re_sub_cons, (H c (a ++ rest) (or_introl eq_refl)), IH;
    [reflexivity|]. intros d s Hd. apply H. now right.
Qed.

Lemma line_comment_at_other (c : ascii) (s : text) :
  c <> "-"%char -> line_comment_at (c :: s) = None.
Proof.
  intros H. unfold line_comment_at.
  change (py "--") with ("-"%char :: py "-").
  now rewrite starts_with_absent.
Qed.

Lemma block_comment_at_other (c : ascii) (s : text) :
  c <> "/"%char -> block_comment_at (c :: s) = None.
Proof.
  intros H. unfold block_comment_at.
  change (py "/*") with ("/"%char :: py "*").
  now rewrite starts_with_absent.
Qed.

Lemma continuation_at_other (c : ascii) (s : text) :
  c <> "\"%char -> Kg.continuation_at (c :: s) = None.
Proof.
  intros H. unfold Kg.continuation_at.
  destruct (eqc c "\") eqn:E; [|reflexivity].
  apply eqc_eq in E. congruence.
Qed.

Lemma first_statement_app (a rest : text) :
  ~ In ";"%char a ->
  Kg.first_statement (a ++ ";"%char :: rest) = a /\
  Kg.first_statement a = a.
Proof.
  induction a as [|c a IH]; intros H; [split; reflexivity|].
  simpl. destruct (eqc c ";") eqn:E.
  - apply eqc_eq in E. exfalso. apply H. now left.
  - destruct IH as [IH1 IH2]; [intros Hin; apply H; now right|].
    now rewrite IH1, IH2.
Qed.

(** X14: of a text whose first statement holds no [-], [/], backslash or
    semicolon, [sanitize_sql] of [trendsql_kg] keeps the first statement,
    stripped, and drops the first semicolon with all that follows. *)
Theorem kg_sanitize_first_statement (a b : text) :
  (forall c, In c a -> ~ In c [";"; "-"; "/"; "\"]%char) ->
  Kg.sanitize_sql (a ++ ";"%char :: b) = strip a /\
  Kg.sanitize_sql a = strip a.
Proof.
  intros H.
  assert (H1 : forall c s, In c a -> line_comment_at (c :: s) = None).
  { intros c s Hc. apply line_comment_at_other. intros ->.
    apply (H _ Hc). simpl. auto. }
  assert (H2 : forall c s, In c a -> block_comment_at (c :: s) = None).
  { intros c s Hc. apply block_comment_at_other. intros ->.
    apply (H _ Hc). simpl. auto. }
  assert (H3 : forall c s, In c (strip a) ->
                 Kg.continuation_at (c :: s) = None).
  { intros c s Hc. apply continuation_at_other. intros ->.
    apply (H _ (strip_In _ _ Hc)). simpl. auto. }
  assert (H4 : ~ In ";"%char a).
  { intros Hc. apply (H _ Hc). simpl. auto. }
  assert (H5 : re_sub Kg.continuation_at (py " ") (strip a) = strip a).
  { rewrite <- (app_nil_r (strip a)) at 1.
    now rewrite (re_sub_skip _ _ _ _ H3), re_sub_nil, app_nil_r. }
  destruct (first_statement_app a
              (re_sub block_comment_at []
                 (re_sub line_comment_at [] b)) H4) as [F1 F2].
  unfold Kg.sanitize_sql. split.
  - rewrite (re_sub_skip _ _ _ _ H1), re_sub_cons.
    rewrite line_comment_at_other by discriminate.
    rewrite (re_sub_skip _ _ _ _ H2), re_sub_cons.
    rewrite block_comment_at_other by discriminate.
    now rewrite F1.
  - rewrite <- (app_nil_r a) at 1.
    rewrite (re_sub_skip _ _ _ _ H1), re_sub_nil, app_nil_r.
    rewrite <- (app_nil_r a) at 1.
    rewrite (re_sub_skip _ _ _ _ H2), re_sub_nil, app_nil_r.
    now rewrite F2.
Qed.

Lemma kg_sanitize_first_statement_witness :
  (forall c, In c (py " SELECT * FROM topics ") ->
             ~ In c [";"; "-"; "/"; "\"]%char) /\
  Kg.sanitize_sql (py " SELECT * FROM topics " ++ ";"%char :: py " DROP TABLE t")
  = strip (py " SELECT * FROM topics ") /\
  Kg.sanitize_sql (py " SELECT * FROM topics ")
  = strip (py " SELECT * FROM topics ").
Proof.
  assert (H : forall c, In c (py " SELECT * FROM topics ") ->
                        ~ In c [";"; "-"; "/"; "\"]%char).
  { intros c Hc Hs. revert c Hs Hc.
    intros c [<-|[<-|[<-|[<-|[]]]]]; apply not_in_by_test; reflexivity. }
  split; [exact H|].
  exact (kg_sanitize_first_statement (py " SELECT * FROM topics ")
           (py " DROP TABLE t") H).
Defined.

(** ** [add_pagination] of [trendsql_kg] on its own result *)

Lemma space_run_spaces (s : text) : spaces (firstn (space_run s) s).
Proof.
  induction s as [|c s IH]; simpl; [constructor|].
  destruct (isspace c) eqn:E; simpl; [|constructor]. now constructor.
Qed.

Lemma digit_run_digits (s : text) :
  Forall (fun c => isdigit c = true) (firstn (Kg.digit_run s) s).
Proof.
  induction s as [|c s IH]; simpl; [constructor|].
  destruct (isdigit c) eqn:E; simpl; [|constructor]. now constructor.
Qed.

Lemma after_spaces_inv (s r : text) :
  Kg.after_spaces s = Some r -> exists w, spaces w /\ s = w ++ r.
Proof.
  unfold Kg.after_spaces. intros H.
  exists (firstn (space_run s) s). split; [apply space_run_spaces|].
  destruct (space_run s) as [|n]; [discriminate H|].
  injection H as <-. symmetry. apply firstn_skipn.
Qed.

Lemma after_digits_inv (s r : text) :
  Kg.after_digits s = Some r ->
  exists d, Forall (fun c => isdigit c = true) d /\ s = d ++ r.
Proof.
  unfold Kg.after_digits. intros H.
  exists (firstn (Kg.digit_run s) s). split; [apply digit_run_digits|].
  destruct (Kg.digit_run s) as [|n]; [discriminate H|].
  injection H as <-. symmetry. apply firstn_skipn.
Qed.

Lemma starts_with_ci_inv (p s : text) :
  Kg.starts_with_ci p s = true ->
  exists o, s = o ++ skipn (length p) s /\ upper o = upper p.
Proof.
  unfold Kg.starts_with_ci. intros H. apply starts_with_split in H.
  exists (firstn (length p) s). split.
  - symmetry. apply firstn_skipn.
  - unfold upper at 1. rewrite <- firstn_map.
    fold (upper s). rewrite H.
    replace (length p) with (length (upper p))
      by (unfold upper; apply length_map).
    apply firstn_length_app.
Qed.

(** The characters that are not an L in either case. *)
Lemma not_l_space (c : ascii) :
  isspace c = true -> upper_char c <> "L"%char.
Proof.
  intros H E. rewrite <- isspace_upper_char, E in H. discriminate H.
Qed.

Lemma not_l_digit (c : ascii) :
  isdigit c = true -> upper_char c <> "L"%char.
Proof.
  destruct c as [[] [] [] [] [] [] [] []]; vm_compute; intros H;
    try discriminate H; discriminate.
Qed.

Lemma not_l_word (o q : text) :
  upper o = q -> ~ In "L"%char q ->
  Forall (fun c => upper_char c <> "L"%char) o.
Proof.
  intros <- H. apply Forall_forall. intros c Hc E. apply H.
  rewrite <- E. unfold upper. now apply in_map.
Qed.

Lemma offset_tail_not_l (s : text) :
  Kg.offset_tail s = true -> Forall (fun c => upper_char c <> "L"%char) s.
Proof.
  unfold Kg.offset_tail. intros H. apply andb_true_iff in H.
  destruct H as [H1 H2].
  apply starts_with_ci_inv in H1. destruct H1 as (o & Hs & Ho).
  change (length (py "OFFSET")) with 6 in Hs.
  destruct (Kg.after_spaces (skipn 6 s)) as [r|] eqn:E1; [|discriminate H2].
  destruct (Kg.after_digits r) as [r'|] eqn:E2; [|discriminate H2].
  apply after_spaces_inv in E1. destruct E1 as (w & Hw & E1).
  apply after_digits_inv in E2. destruct E2 as (d & Hd & E2).
  rewrite Hs, E1, E2. repeat (apply Forall_app; split).
  - apply (not_l_word o _ Ho). apply not_in_by_test. reflexivity.
  - revert Hw. apply Forall_impl. exact not_l_space.
  - revert Hd. apply Forall_impl. exact not_l_digit.
  - apply Forall_forall. intros c Hc. apply not_l_space.
    unfold Kg.only_spaces in H2. rewrite forallb_forall in H2. auto.
Qed.

Lemma limit_clause_at_not_l (prev : option ascii) (c : ascii) (s : text) :
  Kg.limit_clause_at prev (c :: s) = true ->
  Forall (fun c => upper_char c <> "L"%char) s.
Proof.
  unfold Kg.limit_clause_at. intros H. apply andb_true_iff in H.
  destruct H as [H H2]. apply andb_true_iff in H. destruct H as [_ H1].
  apply starts_with_ci_inv in H1. destruct H1 as (o & Hs & Ho).
  change (length (py "LIMIT")) with 5 in Hs.
  remember (skipn 5 (c :: s)) as t eqn:Et. clear Et.
  destruct o as [|c' o]; [discriminate Ho|].
  change (upper (c' :: o)) with (upper_char c' :: upper o) in Ho.
  change (upper (py "LIMIT")) with ("L"%char :: py "IMIT") in Ho.
  injection Ho as _ Ho.
  change ((c' :: o) ++ t) with (c' :: o ++ t) in Hs.
  injection Hs as _ Hs.
  destruct (Kg.after_spaces t) as [r|] eqn:E1; [|discriminate H2].
  destruct (Kg.after_digits r) as [r'|] eqn:E2; [|discriminate H2].
  apply after_spaces_inv in E1. destruct E1 as (w & Hw & E1).
  apply after_digits_inv in E2. destruct E2 as (d & Hd & E2).
  assert (Hr' : Forall (fun c => upper_char c <> "L"%char) r').
  { assert (Hsp : Kg.only_spaces r' = true ->
                  Forall (fun c => upper_char c <> "L"%char) r').
    { intros Ho'. apply Forall_forall. intros x Hx. apply not_l_space.
      unfold Kg.only_spaces in Ho'. rewrite forallb_forall in Ho'. auto. }
    destruct (Kg.after_spaces r') as [r''|] eqn:E3; [|auto].
    apply orb_true_iff in H2. destruct H2 as [H2|H2]; [|auto].
    apply after_spaces_inv in E3. destruct E3 as (w' & Hw' & ->).
    apply Forall_app. split.
    - revert Hw'. apply Forall_impl. exact not_l_space.
    - now apply offset_tail_not_l. }
  rewrite Hs, E1, E2. repeat (apply Forall_app; split).
  - apply (not_l_word o _ Ho). apply not_in_by_test. reflexivity.
  - revert Hw. apply Forall_impl. exact not_l_space.
  - revert Hd. apply Forall_impl. exact not_l_digit.
  - exact Hr'.
Qed.

(** No LIMIT clause that reaches the end of the text starts before
    another L. *)
Lemma no_limit_clause_before (prev : option ascii) (y r : text) :
  y <> [] -> Kg.limit_clause_at prev (y ++ "L"%char :: r) = false.
Proof.
  intros Hy. destruct y as [|c y]; [congruence|].
  destruct (Kg.limit_clause_at prev ((c :: y) ++ "L"%char :: r)) eqn:E;
    [|reflexivity].
  change ((c :: y) ++ "L"%char :: r) with (c :: y ++ "L"%char :: r) in E.
  apply limit_clause_at_not_l in E. apply Forall_app in E.
  destruct E as [_ E]. inversion E as [|? ? HL _]. now destruct HL.
Qed.

Lemma sub_to_end_eq (m : option ascii -> text -> bool)
  (prev : option ascii) (s : text) :
  Kg.sub_to_end m prev s =
  if m prev s then []
  else match s with
       | [] => []
       | c :: s' => c :: Kg.sub_to_end m (Some c) s'
       end.
Proof. destruct s; reflexivity. Qed.

(** The first position at which the pattern matches is the end of [a]. *)
Lemma sub_to_end_cut (m : option ascii -> text -> bool) (a b : text) :
  forall prev,
  (forall prev' a2, a2 <> [] -> (exists a1, a = a1 ++ a2) ->
     m prev' (a2 ++ b) = false) ->
  m (last_of prev a) b = true ->
  Kg.sub_to_end m prev (a ++ b) = a.
Proof.
  induction a as [|c a IH]; intros prev Hno Hyes; rewrite sub_to_end_eq.
  - change (last_of prev []) with prev in Hyes.
    change ([] ++ b) with b. now rewrite Hyes.
  - rewrite (Hno prev (c :: a)); [|discriminate|now exists []].
    change ((c :: a) ++ b) with (c :: a ++ b). cbv iota. f_equal.
    apply IH.
    + intros prev' a2 Hne [a1 ->]. apply Hno; [exact Hne|].
      now exists (c :: a1).
    + now rewrite last_of_cons in Hyes.
Qed.

Lemma digit_not_space (c : ascii) : isdigit c = true -> isspace c = false.
Proof.
  destruct c as [[] [] [] [] [] [] [] []]; vm_compute; intros H;
    try discriminate H; reflexivity.
Qed.

Lemma after_spaces_blank (n r : text) :
  digits n -> Kg.after_spaces (" "%char :: n ++ r) = Some (n ++ r).
Proof.
  intros [Hne Hd]. destruct n as [|d n]; [congruence|].
  inversion Hd as [|? ? Hd1 _]. unfold Kg.after_spaces.
  assert (E : space_run (" "%char :: (d :: n) ++ r) = 1).
  { change (space_run (" "%char :: (d :: n) ++ r))
      with (S (space_run (d :: n ++ r))).
    simpl. now rewrite (digit_not_space d Hd1). }
  now rewrite E.
Qed.

Lemma digit_run_app (n r : text) :
  Forall (fun c => isdigit c = true) n ->
  match r with [] => True | c :: _ => isdigit c = false end ->
  Kg.digit_run (n ++ r) = length n.
Proof.
  induction 1 as [|d n Hd _ IH]; intros Hr; simpl.
  - destruct r as [|c r]; [reflexivity|]. simpl. now rewrite Hr.
  - rewrite Hd. f_equal. auto.
Qed.

Lemma after_digits_app (n r : text) :
  digits n ->
  match r with [] => True | c :: _ => isdigit c = false end ->
  Kg.after_digits (n ++ r) = Some r.
Proof.
  intros [Hne Hd] Hr. unfold Kg.after_digits.
  rewrite (digit_run_app n r Hd Hr).
  destruct n as [|d n]; [congruence|]. simpl.
  now rewrite skipn_length_app.
Qed.

Lemma starts_with_ci_app (p r : text) : Kg.starts_with_ci p (p ++ r) = true.
Proof.
  unfold Kg.starts_with_ci. rewrite upper_app. apply starts_with_app.
Qed.

Lemma offset_tail_clause (m : text) :
  digits m -> Kg.offset_tail (py "OFFSET" ++ " "%char :: m) = true.
Proof.
  intros Hm. unfold Kg.offset_tail. rewrite starts_with_ci_app.
  change (skipn 6 (py "OFFSET" ++ " "%char :: m)) with (" "%char :: m).
  rewrite <- (app_nil_r m).
  now rewrite (after_spaces_blank m [] Hm), (after_digits_app m [] Hm I).
Qed.

Lemma limit_clause_at_clause (n m : text) :
  digits n -> digits m ->
  Kg.limit_clause_at (Some " "%char)
    (py "LIMIT" ++ " "%char :: n ++ " "%char :: py "OFFSET" ++ " "%char :: m)
  = true.
Proof.
  intros Hn Hm. unfold Kg.limit_clause_at. rewrite starts_with_ci_app.
  set (r := n ++ " "%char :: py "OFFSET" ++ " "%char :: m).
  change (boundary (Some " "%char) (hd_error (py "LIMIT" ++ " "%char :: r)))
    with true.
  change (skipn 5 (py "LIMIT" ++ " "%char :: r)) with (" "%char :: r).
  subst r. rewrite (after_spaces_blank n _ Hn).
  rewrite (after_digits_app n _ Hn) by reflexivity.
  change (Kg.after_spaces (" "%char :: py "OFFSET" ++ " "%char :: m))
    with (Some (py "OFFSET" ++ " "%char :: m)).
  cbv beta iota. now rewrite (offset_tail_clause m Hm).
Qed.

Lemma offset_tail_absent (y : text) :
  starts_with (py "OFFSET") (upper y) = false ->
  Kg.offset_tail (y ++ [" "%char]) = false.
Proof.
  intros H. unfold Kg.offset_tail, Kg.starts_with_ci.
  rewrite upper_app.
  change (upper (py "OFFSET")) with (py "OFFSET").
  rewrite starts_with_app_foreign, H; [reflexivity|discriminate|].
  intros c Hc [E|[]]. revert Hc. rewrite <- E.
  apply not_in_by_test. reflexivity.
Qed.

Lemma offset_pass_id (x : text) :
  contains (py "OFFSET") (upper x) = false ->
  forall prev,
    Kg.sub_to_end Kg.offset_clause_at prev (x ++ [" "%char])
    = x ++ [" "%char].
Proof.
  induction x as [|c x IH]; intros H prev; rewrite sub_to_end_eq;
    unfold Kg.offset_clause_at at 1.
  - change ([] ++ [" "%char]) with ([] ++ [" "%char] : text).
    rewrite (offset_tail_absent [] eq_refl), andb_false_r.
    change ([] ++ [" "%char]) with [" "%char]. cbv iota.
    rewrite sub_to_end_eq. unfold Kg.offset_clause_at.
    change (Kg.offset_tail []) with false. now rewrite andb_false_r.
  - change (upper (c :: x)) with (upper_char c :: upper x) in H.
    apply contains_cons_false in H. destruct H as [H1 H2].
    rewrite (offset_tail_absent (c :: x) H1), andb_false_r.
    change ((c :: x) ++ [" "%char]) with (c :: x ++ [" "%char]).
    cbv iota. now rewrite IH.
Qed.

Lemma lstrip_app_solid (a : text) (c : ascii) (y : text) :
  isspace c = false -> lstrip (a ++ c :: y) = lstrip a ++ c :: y.
Proof.
  intros Hc. induction a as [|d a IH]; simpl; [now rewrite Hc|].
  now destruct (isspace d).
Qed.

Lemma rstrip_cons_solid (c : ascii) (y : text) :
  isspace c = false -> exists z, rstrip (c :: y) = c :: z.
Proof.
  intros Hc. simpl. destruct (rstrip y); rewrite ?Hc; eauto.
Qed.

Lemma rstrip_app_keep (a : text) (c : ascii) (y : text) :
  isspace c = false -> rstrip (a ++ c :: y) = a ++ rstrip (c :: y).
Proof.
  intros Hc. destruct (rstrip_cons_solid c y Hc) as (z & Hz).
  induction a as [|d a IH]; [reflexivity|].
  change ((d :: a) ++ c :: y) with (d :: a ++ c :: y).
  change (rstrip (d :: a ++ c :: y))
    with (match rstrip (a ++ c :: y) with
          | [] => if isspace d then [] else [d]
          | r => d :: r
          end).
  rewrite IH, Hz. now destruct a.
Qed.

Lemma strip_app_blank (x : text) : strip (x ++ [" "%char]) = strip x.
Proof.
  unfold strip. induction x as [|d x IH]; [reflexivity|].
  change ((d :: x) ++ [" "%char]) with (d :: x ++ [" "%char]).
  simpl lstrip. destruct (isspace d); [exact IH|].
  change (d :: x ++ [" "%char]) with ((d :: x) ++ [" "%char]).
  now apply rstrip_app_space.
Qed.

Lemma remove_appended_clause (x n m : text) :
  digits n -> digits m ->
  contains (py "OFFSET") (upper x) = false ->
  Kg._remove_existing_pagination
    (x ++ py " LIMIT " ++ n ++ py " OFFSET " ++ m)
  = strip x.
Proof.
  intros Hn Hm Hx. unfold Kg._remove_existing_pagination.
  set (r := py "IMIT" ++ " "%char :: n
            ++ " "%char :: py "OFFSET" ++ " "%char :: m).
  change (x ++ py " LIMIT " ++ n ++ py " OFFSET " ++ m)
    with (x ++ [" "%char] ++ "L"%char :: r).
  rewrite app_assoc.
  rewrite (sub_to_end_cut Kg.limit_clause_at (x ++ [" "%char])
             ("L"%char :: r) None).
  - rewrite (offset_pass_id x Hx). apply strip_app_blank.
  - intros prev' a2 Hne _. now apply no_limit_clause_before.
  - rewrite last_of_app.
    change (last_of (last_of None x) [" "%char]) with (Some " "%char).
    exact (limit_clause_at_clause n m Hn Hm).
Qed.

Lemma contains_strip_limit (a z : text) :
  contains (py "LIMIT") (strip (a ++ py "LIMIT" ++ z)) = true.
Proof.
  unfold strip.
  change (a ++ py "LIMIT" ++ z) with (a ++ "L"%char :: py "IMIT" ++ z).
  rewrite lstrip_app_solid, rstrip_app_keep by reflexivity.
  change ("L"%char :: py "IMIT" ++ z) with (py "LIMI" ++ "T"%char :: z).
  rewrite rstrip_app_keep by reflexivity.
  destruct (rstrip_cons_solid "T"%char z eq_refl) as (t & ->).
  change (py "LIMI" ++ "T"%char :: t) with (py "LIMIT" ++ t).
  apply contains_app.
Qed.

Lemma contains_strip_false (p s : text) :
  contains p s = false -> contains p (strip s) = false.
Proof.
  intros H. unfold strip.
  destruct (lstrip_decompose s) as (w & _ & Hw).
  destruct (rstrip_decompose (lstrip s)) as (r & Hr & _).
  rewrite Hw in H. apply contains_suffix in H. rewrite Hr in H.
  exact (contains_prefix_false _ _ _ H).
Qed.

Lemma kg_add_pagination_eq (sql : text) (page page_size : Z) :
  Kg.add_pagination sql page page_size
  = (if contains (py "LIMIT") (strip (upper sql))
        || contains (py "OFFSET") (strip (upper sql))
     then Kg._remove_existing_pagination sql else sql)
    ++ kg_limit_clause page page_size.
Proof. reflexivity. Qed.

Lemma kg_limit_clause_digits (page page_size : Z) :
  exists n m,
    digits n /\ digits m /\
    kg_limit_clause page page_size
    = py " LIMIT " ++ n ++ py " OFFSET " ++ m.
Proof.
  unfold kg_limit_clause.
  set (p := if (page <? 1)%Z then 1%Z else page).
  set (n := if (page_size <? 1)%Z then 50%Z else page_size).
  assert (Hp : (1 <= p)%Z) by (subst p; destruct (page <? 1)%Z eqn:E; lia).
  assert (Hn : (1 <= n)%Z)
    by (subst n; destruct (page_size <? 1)%Z eqn:E; lia).
  exists (format_int n), (format_int ((p - 1) * n)).
  split; [apply format_int_digits; lia|].
  split; [apply format_int_digits; nia|reflexivity].
Qed.

Lemma kg_add_pagination_plain (sql : text) (page page_size : Z) :
  contains (py "LIMIT") (upper sql) = false ->
  contains (py "OFFSET") (upper sql) = false ->
  Kg.add_pagination sql page page_size
  = sql ++ kg_limit_clause page page_size.
Proof.
  intros H1 H2. rewrite kg_add_pagination_eq.
  now rewrite (contains_strip_false _ _ H1), (contains_strip_false _ _ H2).
Qed.

(** X15: for a text that holds neither LIMIT nor OFFSET, in either case,
    [add_pagination] of [trendsql_kg] applied to its own result replaces
    the clause it appended: the result is that of one call on the
    stripped text. *)
Theorem kg_add_pagination_replaces (sql : text) (p1 s1 p2 s2 : Z) :
  contains (py "LIMIT") (upper sql) = false ->
  contains (py "OFFSET") (upper sql) = false ->
  Kg.add_pagination (Kg.add_pagination sql p1 s1) p2 s2
  = Kg.add_pagination (strip sql) p2 s2.
Proof.
  intros H1 H2.
  rewrite (kg_add_pagination_plain sql p1 s1 H1 H2).
  rewrite (kg_add_pagination_plain (strip sql) p2 s2);
    [|rewrite strip_upper; now apply contains_strip_false
     |rewrite strip_upper; now apply contains_strip_false].
  rewrite kg_add_pagination_eq.
  destruct (kg_limit_clause_digits p1 s1) as (n & m & Hn & Hm & ->).
  assert (Ht : contains (py "LIMIT")
                 (strip (upper (sql ++ py " LIMIT " ++ n
                                ++ py " OFFSET " ++ m))) = true).
  { rewrite upper_app.
    change (upper (py " LIMIT " ++ n ++ py " OFFSET " ++ m))
      with ([" "%char] ++ py "LIMIT"
            ++ " "%char :: upper (n ++ py " OFFSET " ++ m)).
    rewrite app_assoc. apply contains_strip_limit. }
  rewrite Ht. cbn [orb].
  now rewrite (remove_appended_clause sql n m Hn Hm H2).
Qed.

Lemma kg_add_pagination_replaces_witness :
  contains (py "LIMIT") (upper (py "SELECT * FROM topics ")) = false /\
  contains (py "OFFSET") (upper (py "SELECT * FROM topics ")) = false /\
  Kg.add_pagination (Kg.add_pagination (py "SELECT * FROM topics ") 1 10) 2 20
  = Kg.add_pagination (strip (py "SELECT * FROM topics ")) 2 20.
Proof.
  split; [reflexivity|]. split; [reflexivity|].
  apply (kg_add_pagination_replaces (py "SELECT * FROM topics ") 1 10 2 20);
    reflexivity.
Defined.

(** ** Escaped cell text *)

Lemma flat_map_flat_map (f g : ascii -> text) (s : text) :
  flat_map g (flat_map f s) = flat_map (fun c => flat_map g (f c)) s.
Proof.
  induction s as [|c s IH]; [reflexivity|]. simpl.
  now rewrite flat_map_app, IH.
Qed.

Lemma escape_html_one_pass (s : text) :
  Kg._escape_html s = flat_map escape_char s.
Proof.
  unfold Kg._escape_html, str_replace. rewrite !flat_map_flat_map.
  apply flat_map_ext. intros c.
  destruct c as [[] [] [] [] [] [] [] []]; reflexivity.
Qed.

Lemma escape_char_safe (c : ascii) :
  forallb (fun d => negb (existsb (eqc d) markup)) (escape_char c) = true.
Proof. destruct c as [[] [] [] [] [] [] [] []]; reflexivity. Qed.

Lemma escape_char_cases (c : ascii) :
  (escape_char c = [c] /\ c <> "&"%char) \/
  (c = "&"%char \/ c = "<"%char \/ c = ">"%char \/ c = dquote
   \/ c = "'"%char).
Proof.
  destruct c as [[] [] [] [] [] [] [] []];
    first [ left; split; [reflexivity|discriminate]
          | right; vm_compute; tauto ].
Qed.

Lemma escape_char_head (c d : ascii) (x y : text) :
  escape_char c ++ x = escape_char d ++ y -> c = d /\ x = y.
Proof.
  intros H.
  destruct (escape_char_cases c) as [[Ec Hc]|Hc];
    destruct (escape_char_cases d) as [[Ed Hd]|Hd].
  - rewrite Ec, Ed in H. injection H as -> ->. auto.
  - rewrite Ec in H.
    destruct Hd as [->|[->|[->|[->| ->]]]]; injection H as E _;
      now destruct Hc.
  - rewrite Ed in H.
    destruct Hc as [->|[->|[->|[->| ->]]]]; injection H as E _;
      symmetry in E; now destruct Hd.
  - destruct Hc as [->|[->|[->|[->| ->]]]];
      destruct Hd as [->|[->|[->|[->| ->]]]];
      first [ discriminate H
            | split; [reflexivity|]; injection H as H; exact H ].
Qed.

(** X16: in the text [_escape_html] returns for a cell no character
    carries markup: it holds no [<], no [>], no double and no single quote.
    The five replacements in a row amount to one pass that writes an
    entity for each of the five characters, so an ampersand written by an
    earlier replacement is never escaped again.  The cell text of
    [rows_to_html_table] in [trendsql] holds no [<] and no [>]. *)
Theorem escape_html_safe (s : text) :
  Kg._escape_html s = flat_map escape_char s /\
  (forall c, In c (Kg._escape_html s) -> ~ In c markup) /\
  ~ In "<"%char (escaped_value s) /\ ~ In ">"%char (escaped_value s).
Proof.
  split; [apply escape_html_one_pass|]. split.
  - intros c Hc Hm. rewrite escape_html_one_pass in Hc.
    apply in_flat_map in Hc. destruct Hc as (d & _ & Hc).
    pose proof (escape_char_safe d) as Hs.
    rewrite forallb_forall in Hs. specialize (Hs c Hc).
    apply negb_true_iff in Hs.
    assert (Ht : existsb (eqc c) markup = true).
    { apply existsb_exists. exists c. split; [exact Hm|apply eqc_refl]. }
    congruence.
  - assert (E : escaped_value s
              = flat_map (fun c => if eqc c "&" then py "&amp;"
                                   else if eqc c "<" then py "&lt;"
                                   else if eqc c ">" then py "&gt;"
                                   else [c]) s).
    { unfold escaped_value, str_replace. rewrite !flat_map_flat_map.
      apply flat_map_ext. intros c.
      destruct c as [[] [] [] [] [] [] [] []]; reflexivity. }
    rewrite E. split; intros H; apply in_flat_map in H;
      destruct H as (d & _ & H); revert H;
      destruct d as [[] [] [] [] [] [] [] []]; vm_compute;
      intuition discriminate.
Qed.

(** X17: [_escape_html] loses nothing: two texts with the same escaped
    form are the same text. *)
Theorem escape_html_injective (s t : text) :
  Kg._escape_html s = Kg._escape_html t -> s = t.
Proof.
  rewrite !escape_html_one_pass. revert t.
  induction s as [|c s IH]; intros [|d t] H.
  - reflexivity.
  - exfalso. simpl in H.
    destruct (escape_char_cases d) as [[Ed _]|Hd].
    + rewrite Ed in H. discriminate H.
    + destruct Hd as [->|[->|[->|[->| ->]]]]; discriminate H.
  - exfalso. simpl in H.
    destruct (escape_char_cases c) as [[Ec _]|Hc].
    + rewrite Ec in H. discriminate H.
    + destruct Hc as [->|[->|[->|[->| ->]]]]; discriminate H.
  - simpl in H. apply escape_char_head in H. destruct H as [-> H].
    f_equal. now apply IH.
Qed.

Lemma escape_html_injective_witness :
  Kg._escape_html (py "a < b & c") = Kg._escape_html (py "a < b & c") /\
  py "a < b & c" = py "a < b & c".
Proof.
  split; [reflexivity|].
  apply (escape_html_injective (py "a < b & c") (py "a < b & c")).
  reflexivity.
Defined.

(** ** A semicolon at the end of a line, in [trendsql_kg] *)

Lemma anywhere_app (m : text -> bool) (a s : text) :
  m s = true -> Kg.anywhere m (a ++ s) = true.
Proof.
  intros H. induction a as [|c a IH].
  - destruct s; simpl; now rewrite H.
  - change ((c :: a) ++ s) with (c :: a ++ s). simpl.
    rewrite IH. apply orb_true_r.
Qed.

Lemma semicolon_line_end_dangerous (a t : text) :
  Kg.spaces_then_eol t = true ->
  Kg._has_dangerous_patterns (a ++ ";"%char :: t) = true.
Proof.
  intros H. unfold Kg._has_dangerous_patterns.
  assert (E : Kg.anywhere (Kg.lit_then_eol ";") (a ++ ";"%char :: t) = true).
  { apply anywhere_app. unfold Kg.lit_then_eol. now rewrite eqc_refl, H. }
  rewrite E. now rewrite orb_true_r.
Qed.

Lemma kg_normalized_semicolon_rejected (parsed_verdict : text -> verdict)
  (sql a t : text) :
  Kg._normalize_sql sql = a ++ ";"%char :: t ->
  Kg.spaces_then_eol t = true ->
  Kg.check_sql_safety parsed_verdict sql = (false, Some Kg.msg_dangerous).
Proof.
  intros Hn Ht. unfold Kg.check_sql_safety.
  destruct (strip sql) as [|c r] eqn:E.
  - unfold Kg._normalize_sql in Hn. rewrite E, !re_sub_nil in Hn.
    destruct a; discriminate Hn.
  - now rewrite Hn, (semicolon_line_end_dangerous a t Ht).
Qed.

Lemma rstrip_spaces (w : text) : spaces w -> rstrip w = [].
Proof.
  induction 1 as [|c w Hc _ IH]; [reflexivity|]. simpl. now rewrite IH, Hc.
Qed.

Lemma lstrip_In (c : ascii) (s : text) : In c (lstrip s) -> In c s.
Proof.
  destruct (lstrip_decompose s) as (w & _ & Hw). intros H.
  rewrite Hw. apply in_or_app. now right.
Qed.

(** X18: [check_sql_safety] rejects a query that ends with a semicolon,
    with or without white space after it, as holding dangerous patterns,
    whatever [sqlparse] would say of it; the text before the semicolon is
    any text without [-] and [/]. *)
Theorem kg_trailing_semicolon_rejected (parsed_verdict : text -> verdict)
  (q ws : text) :
  (forall c, In c q -> c <> "-"%char /\ c <> "/"%char) ->
  spaces ws ->
  Kg.check_sql_safety parsed_verdict (q ++ ";"%char :: ws)
  = (false, Some Kg.msg_dangerous).
Proof.
  intros Hq Hw.
  apply (kg_normalized_semicolon_rejected _ _ (lstrip q) []);
    [|reflexivity].
  unfold Kg._normalize_sql, strip.
  rewrite lstrip_app_solid, rstrip_app_keep by reflexivity.
  assert (E : rstrip (";"%char :: ws) = [";"%char]).
  { simpl. now rewrite (rstrip_spaces ws Hw). }
  rewrite E.
  rewrite re_sub_skip, re_sub_cons, re_sub_nil.
  - change (line_comment_at [";"%char]) with (@None nat). cbv iota.
    rewrite re_sub_skip, re_sub_cons, re_sub_nil.
    + reflexivity.
    + intros c s Hc. apply block_comment_at_other.
      exact (proj2 (Hq c (lstrip_In _ _ Hc))).
  - intros c s Hc. apply line_comment_at_other.
    exact (proj1 (Hq c (lstrip_In _ _ Hc))).
Qed.

Lemma kg_trailing_semicolon_rejected_witness :
  (forall c, In c (py "SELECT * FROM topics") ->
             c <> "-"%char /\ c <> "/"%char) /\
  spaces (py " ") /\
  Kg.check_sql_safety (fun _ => (true, None))
    (py "SELECT * FROM topics" ++ ";"%char :: py " ")
  = (false, Some Kg.msg_dangerous).
Proof.
  assert (H : forall c, In c (py "SELECT * FROM topics") ->
                        c <> "-"%char /\ c <> "/"%char).
  { intros c Hc. split; intros ->; revert Hc;
      apply not_in_by_test; reflexivity. }
  assert (Hw : spaces (py " ")) by (repeat constructor).
  split; [exact H|]. split; [exact Hw|].
  exact (kg_trailing_semicolon_rejected (fun _ => (true, None))
           (py "SELECT * FROM topics") (py " ") H Hw).
Defined.

(** ** The first word of what the [/query] handler executes *)

Lemma word_not_space (c : ascii) : isword c = true -> isspace c = false.
Proof.
  intros H. destruct (isspace c) eqn:E; [|reflexivity].
  apply isspace_not_word in E. congruence.
Qed.

Lemma rstrip_cons_keep (c : ascii) (y : text) :
  isspace c = false -> rstrip (c :: y) = c :: rstrip y.
Proof. intros Hc. simpl. destruct (rstrip y); now rewrite ?Hc. Qed.

Lemma rstrip_word_prefix (k y : text) :
  forallb isword k = true -> rstrip (k ++ y) = k ++ rstrip y.
Proof.
  induction k as [|c k IH]; intros H; [reflexivity|].
  simpl in H. apply andb_true_iff in H. destruct H as [Hc Hk].
  change ((c :: k) ++ y) with (c :: k ++ y).
  rewrite rstrip_cons_keep by now apply word_not_space.
  now rewrite IH.
Qed.

Lemma hd_rstrip_not_word (y : text) :
  wordc (hd_error y) = false -> wordc (hd_error (rstrip y)) = false.
Proof.
  intros H. destruct (rstrip y) as [|a r] eqn:E; [reflexivity|].
  apply rstrip_head in E. destruct E as (ys & ->). exact H.
Qed.

Lemma hd_firstn_not_word (n : nat) (y : text) :
  wordc (hd_error y) = false -> wordc (hd_error (firstn n y)) = false.
Proof. intros H. destruct n, y; auto. Qed.

Lemma hd_app_not_word (a b : text) :
  wordc (hd_error a) = false -> wordc (hd_error b) = false ->
  wordc (hd_error (a ++ b)) = false.
Proof. intros Ha Hb. now destruct a. Qed.

(** A text whose upper-case form starts with the word [k]. *)
Lemma leading_keyword_intro (t k x : text) :
  wordy k = true -> upper t = k ++ x -> wordc (hd_error x) = false ->
  leading_keyword t = k.
Proof.
  intros Hk Hu Hx. pose proof (wordy_forallb k Hk) as Hw.
  unfold leading_keyword. rewrite strip_upper, Hu. unfold strip.
  rewrite lstrip_id.
  - rewrite rstrip_word_prefix by exact Hw.
    apply word_prefix_app; [exact Hw|]. now apply hd_rstrip_not_word.
  - destruct k as [|c k]; [discriminate Hk|]. simpl in Hw.
    apply andb_true_iff in Hw. destruct Hw as [Hc _].
    simpl. now apply word_not_space.
Qed.

Lemma leading_keyword_elim (t : text) :
  trimmed t ->
  exists x, upper t = leading_keyword t ++ x /\ wordc (hd_error x) = false.
Proof.
  intros Ht. unfold leading_keyword. rewrite Ht.
  apply word_prefix_split.
Qed.

Lemma allowed_start_wordy (k : text) : In k allowed_start -> wordy k = true.
Proof. intros [<-|[<-|[<-|[]]]]; reflexivity. Qed.

(** No LIMIT starts inside WITH, SELECT or EXPLAIN. *)
Lemma limit_after_keyword (k x : text) (l : nat) :
  In k allowed_start ->
  str_rfind (py "LIMIT") (k ++ x) = Some l -> length k <= l.
Proof.
  intros Hk H. apply str_rfind_sound in H.
  destruct Hk as [<-|[<-|[<-|[]]]];
    do 7 (destruct l as [|l];
          [first [ vm_compute in H; discriminate H | simpl; lia ]|]);
    simpl; lia.
Qed.

Lemma add_pagination_leading_keyword (sql : text) (page page_size : Z) :
  trimmed sql -> ~ In ";"%char sql ->
  In (leading_keyword sql) allowed_start ->
  leading_keyword (add_pagination sql page page_size) = leading_keyword sql.
Proof.
  intros Ht Hs Hk.
  destruct (leading_keyword_elim sql Ht) as (x & Hu & Hx).
  pose proof (allowed_start_wordy _ Hk) as Hw.
  pose proof (wordy_forallb _ Hw) as Hf.
  assert (Hc : wordc (hd_error (upper (limit_clause page page_size))) = false)
    by reflexivity.
  rewrite add_pagination_eq.
  change (without_limit sql)
    with (cut_from (str_rfind (py "LIMIT") (upper sql)) sql).
  destruct (str_rfind (py "LIMIT") (upper sql)) as [l|] eqn:El.
  - rewrite (cut_from_no_semicolon l sql Hs), rstrip_idem.
    rewrite Hu in El. apply limit_after_keyword in El; [|exact Hk].
    apply (leading_keyword_intro _ _
             (rstrip (firstn (l - length (leading_keyword sql)) x)
              ++ upper (limit_clause page page_size)) Hw).
    + rewrite upper_app, rstrip_upper. unfold upper at 1.
      rewrite <- firstn_map. fold (upper sql). rewrite Hu.
      rewrite firstn_app, firstn_all2 by exact El.
      now rewrite rstrip_word_prefix, <- app_assoc.
    + apply hd_app_not_word; [|exact Hc].
      now apply hd_rstrip_not_word, hd_firstn_not_word.
  - unfold cut_from.
    apply (leading_keyword_intro _ _
             (rstrip x ++ upper (limit_clause page page_size)) Hw).
    + rewrite upper_app, rstrip_upper, Hu.
      now rewrite rstrip_word_prefix, <- app_assoc.
    + apply hd_app_not_word; [|exact Hc]. now apply hd_rstrip_not_word.
Qed.

Lemma create_count_query_leading_keyword (sql : text) :
  leading_keyword (create_count_query sql) = py "SELECT".
Proof.
  unfold create_count_query.
  match goal with
  | |- leading_keyword (_ ++ ?b) = _ =>
      apply (leading_keyword_intro _ _
               (py " COUNT(*) AS TOTAL FROM (" ++ upper b));
        [reflexivity| |reflexivity]
  end.
  now rewrite upper_app.
Qed.

(** X20: whatever the request, every statement the [/query] handler passes
    to the database starts with WITH, SELECT or EXPLAIN as a word: the
    paginated query keeps the first word of the query that was checked,
    and the count query starts with SELECT. *)
Theorem execute_query_leading_keyword (request_sql : text)
  (request_page request_page_size : Z) (include_total : bool)
  (paginated_sql : text) (count_sql : option text) :
  execute_query request_sql request_page request_page_size include_total
  = Executes paginated_sql count_sql ->
  In (leading_keyword paginated_sql) allowed_start /\
  leading_keyword paginated_sql = leading_keyword (sanitize_sql request_sql) /\
  (forall q, count_sql = Some q -> leading_keyword q = py "SELECT").
Proof.
  unfold execute_query, validate_pagination_params.
  destruct (ensure_safe_select (sanitize_sql request_sql))
    as [[safe error]|e] eqn:E; [|discriminate].
  destruct safe; [|discriminate]. cbn [negb].
  intros H. injection H as <- <-.
  apply accepted_inv in E. destruct E as (_ & Hk & _ & _ & Hs & _).
  assert (Ht : trimmed (sanitize_sql request_sql))
    by (unfold trimmed, sanitize_sql; apply strip_idem).
  rewrite (add_pagination_leading_keyword _ _ _ Ht Hs Hk).
  split; [exact Hk|]. split; [reflexivity|].
  intros q Hq. destruct include_total; [|discriminate Hq].
  injection Hq as <-. apply create_count_query_leading_keyword.
Qed.

Lemma execute_query_leading_keyword_witness :
  execute_query (py "with t as (select 1) select * from t limit 5") 1 10 true
  = Executes
      (py "with t as (select 1) select * from t LIMIT 10 OFFSET 0")
      (Some (create_count_query
               (py "with t as (select 1) select * from t limit 5"))) /\
  In (leading_keyword
        (py "with t as (select 1) select * from t LIMIT 10 OFFSET 0"))
     allowed_start /\
  leading_keyword
    (py "with t as (select 1) select * from t LIMIT 10 OFFSET 0")
  = leading_keyword
      (sanitize_sql (py "with t as (select 1) select * from t limit 5")) /\
  (forall q,
     Some (create_count_query
             (py "with t as (select 1) select * from t limit 5")) = Some q ->
     leading_keyword q = py "SELECT").
Proof.
  assert (H : execute_query
                (py "with t as (select 1) select * from t limit 5") 1 10 true
    = Executes
        (py "with t as (select 1) select * from t LIMIT 10 OFFSET 0")
        (Some (create_count_query
                 (py "with t as (select 1) select * from t limit 5"))))
    by (vm_compute; reflexivity).
  split; [exact H|].
  exact (execute_query_leading_keyword _ _ _ _ _ _ H).
Defined.
